(** * apns2/client.py: the APNs HTTP/2 client, embedded and verified

    The client drives one HTTP/2 connection (hyper's [HTTP20Connection]).
    Everything the connection does is outside the file; it is an interface
    here, a type class over the connection's own state.  The client's methods
    are functions in a state-and-exception monad over the client object, and
    every call made on the connection is appended to a log, so that the order
    and number of the calls can be stated. *)

From Stdlib Require Import ZArith String List Lia DecimalString DecimalZ DecimalPos.
From stdpp Require Import base gmap strings list.
From Equations Require Import Equations.

Open Scope Z_scope.
Set Warnings "-register-all,-clear-no-such-hyp".
Set Default Proof Using "Type*".

(** ** Python values and exceptions *)

(** What [json.loads] can return, and [None]. *)
Inductive py_value : Type :=
| PyNone
| PyBool (b : bool)
| PyInt (z : Z)
| PyFloat (repr : string)
| PyStr (s : string)
| PyList (l : list py_value)
| PyDict (items : list (string * py_value)).

(** The two ways this file can meet a [TypeError]: ordering an int against
    [None], and subscripting a non-dict with a string. *)
Inductive type_error : Type := Unorderable | BadSubscript.

Inductive exn : Type :=
| ConnectionFailed
| TransportError (what : string)
| SerializeError
| UnicodeDecodeError
| JSONDecodeError
| KeyError (key : string)
| TypeError (cause : type_error)
| IndexError
| AttributeError
| NotificationRejected (reason : py_value).

(** Modelled from the spec: [errors.exception_class_for_reason], imported by
    the client but not part of the sources.  The spec gives what
    [send_notification] raises as [NotificationRejected(reason_code)], a typed
    error carrying the gateway's reason. *)
Definition exception_class_for_reason (reason : py_value) : exn :=
  NotificationRejected reason.

(** [data['reason']]: subscripting with a string key.  A dict looks the key
    up; every other JSON value rejects a string subscript. *)
Fixpoint dict_get (items : list (string * py_value)) (key : string) : option py_value :=
  match items with
  | [] => None
  | (k, v) :: rest => if String.eqb k key then Some v else dict_get rest key
  end.

Definition py_getitem (data : py_value) (key : string) : exn + py_value :=
  match data with
  | PyDict items =>
      match dict_get items key with
      | Some v => inr v
      | None => inl (KeyError key)
      end
  | _ => inl (TypeError BadSubscript)
  end.

(** [result != 'Success'] *)
Definition py_ne_str (v : py_value) (s : string) : bool :=
  match v with
  | PyStr s' => negb (String.eqb s' s)
  | _ => true
  end.

(** ** Module constants and types *)

Inductive NotificationPriority : Type := Immediate | Delayed.

Definition priority_value (p : NotificationPriority) : string :=
  match p with
  | Immediate => "10"
  | Delayed => "5"
  end.

Definition priority_eqb (p q : NotificationPriority) : bool :=
  match p, q with
  | Immediate, Immediate | Delayed, Delayed => true
  | _, _ => false
  end.

Definition DEFAULT_APNS_PRIORITY : NotificationPriority := Immediate.
Definition CONCURRENT_STREAMS_SAFETY_MAXIMUM : Z := 1000.
Definition MAX_CONNECTION_RETRIES : nat := 3.

Record RequestStream : Type := { stream_id : Z; rs_token : string }.

Record Notification (Payload : Type) : Type := { token : string; payload : Payload }.
Arguments token {Payload} _.
Arguments payload {Payload} _.

(** ** The connection and the JSON codec as interfaces *)

Record Response : Type := { status : Z; handle : Z }.

(** hyper's [HTTP20Connection] over its own state [W].  Each operation takes
    the state and gives the next one: what the peer does between two calls is
    part of that step, so a setting the peer revises at any time is a
    [remote_max_concurrent_streams] that answers differently on the next call. *)
Class HTTP20Connection (W : Type) : Type := {
  (* [connect()]: [true] when it returns, [false] when it raises an Exception *)
  conn_connect : W → W * bool;
  (* [_conn.remote_settings.max_concurrent_streams], read under the lock *)
  conn_remote_max_concurrent_streams : W → W * Z;
  (* [request(method, url, body, headers)] returns the stream id, or raises *)
  conn_request : string → string → string → gmap string string → W → W * (string + Z);
  (* [get_response(stream_id)] *)
  conn_get_response : Z → W → W * (string + Response);
  (* [response.read()] *)
  conn_read : Response → W → W * (string + string)
}.

(** [json.dumps(notification.dict(), cls=encoder, ensure_ascii=False,
    separators=(',', ':')).encode('utf-8')] on the way out, and
    [bytes.decode('utf-8')] and [json.loads] on the way in. *)
Class JsonCodec (Payload : Type) : Type := {
  json_dumps_utf8 : Payload → option string;
  utf8_decode : string → option string;
  json_loads : string → option py_value
}.

(** ** Calls on the connection, as logged *)

Inductive event : Type :=
| EvConnect (ok : bool)
| EvSettings (raw : Z)
| EvRequest (method url body : string) (headers : gmap string string) (r : string + Z)
| EvGetResponse (sid : Z)
| EvRead (sid : Z).

(** Stream ids handed out by [request], in call order. *)
Definition submitted_of (ev : event) : list Z :=
  match ev with
  | EvRequest _ _ _ _ (inr sid) => [sid]
  | _ => []
  end.

(** Stream ids passed to [get_response], in call order. *)
Definition drained_of (ev : event) : list Z :=
  match ev with
  | EvGetResponse sid => [sid]
  | _ => []
  end.

Definition connects_of (ev : event) : list bool :=
  match ev with
  | EvConnect ok => [ok]
  | _ => []
  end.

Definition settings_of (ev : event) : list Z :=
  match ev with
  | EvSettings raw => [raw]
  | _ => []
  end.

Definition reads_of (ev : event) : list Z :=
  match ev with
  | EvRead sid => [sid]
  | _ => []
  end.

Definition submitted (t : list event) : list Z := concat (map submitted_of t).
Definition drained (t : list event) : list Z := concat (map drained_of t).
Definition connects (t : list event) : list bool := concat (map connects_of t).
Definition settings (t : list event) : list Z := concat (map settings_of t).
Definition reads (t : list event) : list Z := concat (map reads_of t).

(** ** The client object and its monad *)

Section Client.

Context {W : Type} `{HTTP20Connection W}.
Context {Payload : Type} `{JsonCodec Payload}.

Record APNsClient : Type := {
  connection : W;
  max_concurrent_streams : option Z;
  previous_server_max_concurrent_streams : option Z;
  trace : list event
}.

(** [__init__]: both limits start as [None]. *)
Definition init (w : W) : APNsClient :=
  {| connection := w;
     max_concurrent_streams := None;
     previous_server_max_concurrent_streams := None;
     trace := [] |}.

Definition M (A : Type) : Type := APNsClient → APNsClient * (exn + A).

Definition ret {A} (a : A) : M A := fun self => (self, inr a).
Definition raise {A} (e : exn) : M A := fun self => (self, inl e).
Definition bind {A B} (m : M A) (k : A → M B) : M B :=
  fun self =>
    match m self with
    | (self', inr a) => k a self'
    | (self', inl e) => (self', inl e)
    end.

Notation "'let*' x ':=' m 'in' k" := (bind m (fun x => k))
  (at level 10, x name, m at level 100, k at level 200).
Notation "m ';;;' k" := (bind m (fun _ => k))
  (at level 100, k at level 200, right associativity).

(** Run a connection operation: thread the connection state, log the call. *)
Definition on_connection {A} (op : W → W * A) (log : A → list event) : M A :=
  fun self =>
    let '(w, a) := op (connection self) in
    ({| connection := w;
        max_concurrent_streams := max_concurrent_streams self;
        previous_server_max_concurrent_streams := previous_server_max_concurrent_streams self;
        trace := trace self ++ log a |}, inr a).

Definition lift_exn {A} (r : exn + A) : M A :=
  match r with
  | inr a => ret a
  | inl e => raise e
  end.

(** An exception raised inside the connection propagates unchanged. *)
Definition lift_transport {A} (r : string + A) : M A :=
  match r with
  | inr a => ret a
  | inl what => raise (TransportError what)
  end.

Definition get_max_concurrent_streams : M (option Z) :=
  fun self => (self, inr (max_concurrent_streams self)).

Definition get_previous_server_max_concurrent_streams : M (option Z) :=
  fun self => (self, inr (previous_server_max_concurrent_streams self)).

Definition set_max_concurrent_streams (v : Z) : M unit :=
  fun self =>
    ({| connection := connection self;
        max_concurrent_streams := Some v;
        previous_server_max_concurrent_streams := previous_server_max_concurrent_streams self;
        trace := trace self |}, inr tt).

Definition set_previous_server_max_concurrent_streams (v : Z) : M unit :=
  fun self =>
    ({| connection := connection self;
        max_concurrent_streams := max_concurrent_streams self;
        previous_server_max_concurrent_streams := Some v;
        trace := trace self |}, inr tt).

(** ** update_max_concurrent_streams (client.py, lines 122-146) *)

(** [max_concurrent_streams == self.__previous_server_max_concurrent_streams]:
    an int never equals [None]. *)
Definition eq_previous (raw : Z) (previous : option Z) : bool :=
  match previous with
  | Some p => raw =? p
  | None => false
  end.

Definition update_max_concurrent_streams : M py_value :=
  let* raw := on_connection conn_remote_max_concurrent_streams (fun r => [EvSettings r]) in
  let* previous := get_previous_server_max_concurrent_streams in
  if eq_previous raw previous then
    ret PyNone
  else
    set_previous_server_max_concurrent_streams raw ;;;
    if raw >? CONCURRENT_STREAMS_SAFETY_MAXIMUM then
      set_max_concurrent_streams CONCURRENT_STREAMS_SAFETY_MAXIMUM ;;;
      ret PyNone
    else if raw <? 1 then
      set_max_concurrent_streams 1 ;;;
      ret PyNone
    else
      set_max_concurrent_streams raw ;;;
      ret PyNone.

(** ** connect (lines 148-163) *)

(** [while retries < MAX_CONNECTION_RETRIES]: the distance to the bound is
    what decreases. *)
Equations? connect_loop (retries : nat) (self : APNsClient) : APNsClient * (exn + py_value)
  by wf (MAX_CONNECTION_RETRIES - retries)%nat lt :=
connect_loop retries self with lt_dec retries MAX_CONNECTION_RETRIES := {
  | left _ with on_connection conn_connect (fun ok => [EvConnect ok]) self := {
      | (self', inr true) => (self', inr PyNone)
      | (self', inr false) => connect_loop (S retries) self'
      | (self', inl e) => (self', inl e) }
  | right _ => (self, inl ConnectionFailed) }.
Proof. unfold MAX_CONNECTION_RETRIES in *. lia. Qed.

Definition connect : M py_value := connect_loop 0.

(** ** send_notification_async (lines 44-58) *)

(** ['%d' % expiration] *)
Definition format_d (n : Z) : string := NilZero.string_of_int (Z.to_int n).

Definition request_headers (topic : string) (priority : NotificationPriority)
    (expiration : option Z) : gmap string string :=
  let headers : gmap string string := {[ "apns-topic"%string := topic ]} in
  let headers :=
    if negb (priority_eqb priority DEFAULT_APNS_PRIORITY)
    then <[ "apns-priority"%string := priority_value priority ]> headers
    else headers in
  match expiration with
  | Some e => <[ "apns-expiration"%string := format_d e ]> headers
  | None => headers
  end.

Definition send_notification_async (token_hex : string) (notification : Payload)
    (topic : string) (priority : NotificationPriority) (expiration : option Z) : M Z :=
  let* json_payload :=
    match json_dumps_utf8 notification with
    | Some b => ret b
    | None => raise SerializeError
    end in
  let headers := request_headers topic priority expiration in
  let url := ("/3/device/" ++ token_hex)%string in
  let* r := on_connection (conn_request "POST" url json_payload headers)
              (fun r => [EvRequest "POST" url json_payload headers r]) in
  lift_transport r.

(** ** get_notification_result (lines 60-67) *)

Definition get_notification_result (sid : Z) : M py_value :=
  let* r := on_connection (conn_get_response sid) (fun _ => [EvGetResponse sid]) in
  let* response := lift_transport r in
  if status response =? 200 then
    ret (PyStr "Success")
  else
    let* rd := on_connection (conn_read response) (fun _ => [EvRead sid]) in
    let* bytes := lift_transport rd in
    let* raw_data :=
      match utf8_decode bytes with
      | Some s => ret s
      | None => raise UnicodeDecodeError
      end in
    let* data :=
      match json_loads raw_data with
      | Some d => ret d
      | None => raise JSONDecodeError
      end in
    lift_exn (py_getitem data "reason").

(** ** send_notification (lines 37-42) *)

Definition send_notification (token_hex : string) (notification : Payload)
    (topic : string) (priority : NotificationPriority) (expiration : option Z) : M py_value :=
  let* sid := send_notification_async token_hex notification topic priority expiration in
  let* result := get_notification_result sid in
  if py_ne_str result "Success" then
    raise (exception_class_for_reason result)
  else
    ret PyNone.

(** ** should_send_notification (lines 119-120) *)

(** [notification is not None and len(open_streams) < self.__max_concurrent_streams];
    [and] does not evaluate the comparison when the notification is [None],
    and comparing an int with [None] is a [TypeError]. *)
Definition should_send_notification (notification : option (Notification Payload))
    (open_streams : list RequestStream) : M bool :=
  match notification with
  | None => ret false
  | Some _ =>
      let* limit := get_max_concurrent_streams in
      match limit with
      | Some l => ret (Z.of_nat (length open_streams) <? l)
      | None => raise (TypeError Unorderable)
      end
  end.

(** ** send_notification_batch (lines 69-117) *)

(** The locals of the loop.  [open_streams] is the deque, oldest first. *)
Record batch_state : Type := {
  notification_iterator : list (Notification Payload);
  next_notification : option (Notification Payload);
  results : gmap string py_value;
  open_streams : list RequestStream
}.

(** [next(notification_iterator, None)] *)
Definition advance (it : list (Notification Payload))
  : option (Notification Payload) * list (Notification Payload) :=
  match it with
  | [] => (None, [])
  | n :: rest => (Some n, rest)
  end.

(** The loop test, line 94. *)
Definition loop_test (b : batch_state) : bool :=
  (0 <? length (open_streams b))%nat
  || match next_notification b with Some _ => true | None => false end.

(** The loop body, lines 97-115. *)
Definition batch_iteration (topic : string) (priority : NotificationPriority)
    (expiration : option Z) (b : batch_state) : M batch_state :=
  update_max_concurrent_streams ;;;
  let* send := should_send_notification (next_notification b) (open_streams b) in
  if send then
    match next_notification b with
    | None => raise AttributeError
    | Some n =>
        let* sid := send_notification_async (token n) (payload n) topic priority expiration in
        let '(next, it) := advance (notification_iterator b) in
        ret {| notification_iterator := it;
               next_notification := next;
               results := results b;
               open_streams := open_streams b ++ [{| stream_id := sid; rs_token := token n |}] |}
    end
  else
    match open_streams b with
    | [] => raise IndexError
    | pending_stream :: rest =>
        let* result := get_notification_result (stream_id pending_stream) in
        ret {| notification_iterator := notification_iterator b;
               next_notification := next_notification b;
               results := <[ rs_token pending_stream := result ]> (results b);
               open_streams := rest |}
    end.

(** The [while] loop.  [None] only when the iteration budget is used up while
    the loop test still holds. *)
Fixpoint batch_loop (fuel : nat) (topic : string) (priority : NotificationPriority)
    (expiration : option Z) (b : batch_state) (self : APNsClient)
  : option (APNsClient * (exn + batch_state)) :=
  if loop_test b then
    match fuel with
    | O => None
    | S fuel' =>
        match batch_iteration topic priority expiration b self with
        | (self', inr b') => batch_loop fuel' topic priority expiration b' self'
        | (self', inl e) => Some (self', inl e)
        end
    end
  else Some (self, inr b).

Definition batch_start (notifications : list (Notification Payload)) : batch_state :=
  let '(next, it) := advance notifications in
  {| notification_iterator := it;
     next_notification := next;
     results := ∅;
     open_streams := [] |}.

Definition send_notification_batch (fuel : nat) (notifications : list (Notification Payload))
    (topic : string) (priority : NotificationPriority) (expiration : option Z)
    (self : APNsClient) : option (APNsClient * (exn + gmap string py_value)) :=
  let b := batch_start notifications in
  match connect self with
  | (self', inl e) => Some (self', inl e)
  | (self', inr _) =>
      match batch_loop fuel topic priority expiration b self' with
      | None => None
      | Some (self'', inl e) => Some (self'', inl e)
      | Some (self'', inr b') => Some (self'', inr (results b'))
      end
  end.

End Client.

Arguments APNsClient W : clear implicits.
Arguments batch_state Payload : clear implicits.

(** ** Notions the properties are stated with *)

(** The clamp as the spec words it: into [[1, SAFETY_MAXIMUM]]. *)
Definition clamp (raw : Z) : Z := Z.max 1 (Z.min raw CONCURRENT_STREAMS_SAFETY_MAXIMUM).

(** The raw values and effective limits the spec lists. *)
Definition clamp_table : list (Z * Z) :=
  [(0, 1); (1, 1); (500, 500); (1000, 1000); (1001, 1000); (5000, 1000)].

(** The largest effective limit among the raw values read so far. *)
Definition peak_limit (raws : list Z) : Z := foldr (fun raw acc => Z.max (clamp raw) acc) 0 raws.

(** The outcome as the spec words it: a tagged value. *)
Inductive Outcome : Type := Success | Failure (reason_code : py_value).

Definition spec_outcome (status_code : Z) (reason : py_value) : Outcome :=
  if status_code =? 200 then Success else Failure reason.

(** Errors that only the scheduler's own statements raise: [popleft] on an
    empty deque, [.token] of [None], and the comparison with a [None] limit. *)
Definition scheduler_fault (e : exn) : bool :=
  match e with
  | IndexError | AttributeError | TypeError Unorderable => true
  | _ => false
  end.

(** A queue monitor over the log: a stream id enters at the tail when
    [request] hands it out and must be at the head when [get_response] is
    called on it.  The result is the queue left, or [None] when some
    [get_response] was not for the oldest outstanding stream. *)
Definition fifo_step (q : option (list Z)) (ev : event) : option (list Z) :=
  match q with
  | None => None
  | Some q =>
      match ev with
      | EvRequest _ _ _ _ (inr sid) => Some (q ++ [sid])
      | EvGetResponse sid =>
          match q with
          | oldest :: rest => if sid =? oldest then Some rest else None
          | [] => None
          end
      | _ => Some q
      end
  end.

Definition fifo_monitor (q : list Z) (t : list event) : option (list Z) :=
  fold_left fifo_step t (Some q).

(** Headers of the requests in the log. *)
Definition requested_headers (t : list event) : list (gmap string string) :=
  concat (map (fun ev => match ev with EvRequest _ _ _ h _ => [h] | _ => [] end) t).

Section Notions.

Context {W : Type} `{HTTP20Connection W}.
Context {Payload : Type} `{JsonCodec Payload}.

(** What [__init__] establishes and every method keeps: the effective limit is
    the clamp of the last raw value seen. *)
Definition client_inv (self : APNsClient W) : Prop :=
  max_concurrent_streams self = clamp <$> previous_server_max_concurrent_streams self.

(** The reason field of a response body: decode, parse, subscript. *)
Definition reason_of_body (bytes : string) : exn + py_value :=
  match utf8_decode bytes with
  | None => inl UnicodeDecodeError
  | Some text =>
      match json_loads text with
      | None => inl JSONDecodeError
      | Some data => py_getitem data "reason"
      end
  end.

(** What is left to do: two steps per notification not yet submitted, one per
    open stream. *)
Definition pending (b : batch_state Payload) : nat :=
  (2 * (length (notification_iterator b)
        + match next_notification b with Some _ => 1 | None => 0 end)
   + length (open_streams b))%nat.

(** The locals after a submission and after a drain. *)
Definition after_submit (b : batch_state Payload) (n : Notification Payload) (sid : Z)
  : batch_state Payload :=
  {| notification_iterator := snd (advance (notification_iterator b));
     next_notification := fst (advance (notification_iterator b));
     results := results b;
     open_streams := open_streams b ++ [{| stream_id := sid; rs_token := token n |}] |}.

Definition after_drain (b : batch_state Payload) (pending_stream : RequestStream)
    (rest : list RequestStream) (result : py_value) : batch_state Payload :=
  {| notification_iterator := notification_iterator b;
     next_notification := next_notification b;
     results := <[ rs_token pending_stream := result ]> (results b);
     open_streams := rest |}.

(** The first [n] iterations of the loop: the states the loop passes through. *)
Fixpoint iterate (n : nat) (topic : string) (priority : NotificationPriority)
    (expiration : option Z) (b : batch_state Payload) (self : APNsClient W)
  : APNsClient W * (exn + batch_state Payload) :=
  match n with
  | O => (self, inr b)
  | S n' =>
      if loop_test b then
        match batch_iteration topic priority expiration b self with
        | (self', inr b') => iterate n' topic priority expiration b' self'
        | (self', inl e) => (self', inl e)
        end
      else (self, inr b)
  end.

(** Tokens of the notifications that have no result yet. *)
Definition tokens_left (b : batch_state Payload) : gset string :=
  list_to_set (rs_token <$> open_streams b)
  ∪ list_to_set (token <$> notification_iterator b)
  ∪ match next_notification b with Some n => {[ token n ]} | None => ∅ end.

End Notions.

(** ** Notions for the whole log of a batch *)

(** The requests made, failed or not: method, url, body and headers. *)
Definition requests (t : list event) : list (string * string * string * gmap string string) :=
  concat (map (fun ev => match ev with EvRequest m u b h _ => [(m, u, b, h)] | _ => [] end) t).

(** The requests the connection raised on. *)
Definition request_failures (t : list event) : list string :=
  concat (map (fun ev => match ev with EvRequest _ _ _ _ (inl what) => [what] | _ => [] end) t).

(** Errors a drain can end in: the connection's own, or one of decoding the
    body of a rejection. *)
Definition raised_by_drain (e : exn) : bool :=
  match e with
  | TransportError _ | UnicodeDecodeError | JSONDecodeError | KeyError _
  | TypeError BadSubscript => true
  | _ => false
  end.

(** Errors an iteration of the batch loop can end in. *)
Definition raised_in_loop (e : exn) : bool :=
  match e with
  | ConnectionFailed | NotificationRejected _ => false
  | _ => true
  end.

Section BatchNotions.

Context {W : Type} `{HTTP20Connection W}.
Context {Payload : Type} `{JsonCodec Payload}.

(** The request that submits a notification. *)
Definition request_of (topic : string) (priority : NotificationPriority)
    (expiration : option Z) (n : Notification Payload)
    (r : string * string * string * gmap string string) : Prop :=
  ∃ body, json_dumps_utf8 (payload n) = Some body
          ∧ r = ("POST"%string, ("/3/device/" ++ token n)%string, body,
                 request_headers topic priority expiration).

(** The notifications not yet submitted, in input order. *)
Definition upcoming (b : batch_state Payload) : list (Notification Payload) :=
  match next_notification b with
  | Some n => n :: notification_iterator b
  | None => notification_iterator b
  end.

(** The values [get_notification_result] can return. *)
Definition result_value (v : py_value) : Prop :=
  v = PyStr "Success" ∨ ∃ bytes, reason_of_body bytes = inr v.

(** The log of the loop and its locals, while no iteration has failed. *)
Definition loop_log_ok (topic : string) (priority : NotificationPriority)
    (expiration : option Z) (notifications : list (Notification Payload))
    (b : batch_state Payload) (evs : list event) : Prop :=
  connects evs = []
  ∧ (next_notification b = None → notification_iterator b = [])
  ∧ (∃ sent, Forall2 (request_of topic priority expiration) sent (requests evs)
             ∧ sent ++ upcoming b = notifications)
  ∧ (length (settings evs) + pending b = 2 * length notifications)%nat
  ∧ request_failures evs = []
  ∧ map_Forall (fun _ v => result_value v) (results b).

(** The log of the loop when an iteration has failed with [e]. *)
Definition loop_log_failed (topic : string) (priority : NotificationPriority)
    (expiration : option Z) (notifications : list (Notification Payload))
    (e : exn) (evs : list event) : Prop :=
  connects evs = []
  ∧ (∃ sent rest, Forall2 (request_of topic priority expiration) sent (requests evs)
                  ∧ sent ++ rest = notifications)
  ∧ (0 < length (settings evs) ≤ 2 * length notifications)%nat
  ∧ raised_in_loop e = true
  ∧ (request_failures evs = []
     ∨ ∃ evs0 method url body headers what,
         evs = evs0 ++ [EvRequest method url body headers (inl what)]
         ∧ request_failures evs0 = []
         ∧ e = TransportError what).

(** How a submission fails: the payload does not serialize, or the
    connection raises on the request. *)
Definition submission_error (topic : string) (priority : NotificationPriority)
    (expiration : option Z) (n : Notification Payload) (self : APNsClient W) (e : exn) : Prop :=
  (json_dumps_utf8 (payload n) = None ∧ e = SerializeError)
  ∨ ∃ body what,
      json_dumps_utf8 (payload n) = Some body
      ∧ snd (conn_request "POST" ("/3/device/" ++ token n) body
               (request_headers topic priority expiration) (connection self)) = inl what
      ∧ e = TransportError what.

(** How a drain fails: the connection raises on [get_response], or the
    response is a rejection and the connection raises on the read of its
    body, or the body does not give a reason. *)
Definition drain_error (sid : Z) (self : APNsClient W) (e : exn) : Prop :=
  (∃ what, snd (conn_get_response sid (connection self)) = inl what
           ∧ e = TransportError what)
  ∨ ∃ w response,
      conn_get_response sid (connection self) = (w, inr response)
      ∧ status response ≠ 200
      ∧ ((∃ what, snd (conn_read response w) = inl what ∧ e = TransportError what)
         ∨ ∃ bytes, snd (conn_read response w) = inr bytes
                    ∧ reason_of_body bytes = inl e).



End BatchNotions.

(** ** A scripted connection, to run the client on concrete inputs *)

Module Sim.

(** The peer as a script: the outcomes of the coming [connect()] calls (an
    exhausted list connects), the raw settings values of the coming reads (the
    last one stays in force), the next stream id, and the reply to each
    stream as a status and a body. *)
Record world : Type := {
  connect_script : list bool;
  settings_script : list Z;
  next_stream_id : Z;
  reply : Z → Z * string
}.

Definition sim_connect (w : world) : world * bool :=
  match connect_script w with
  | [] => (w, true)
  | ok :: rest =>
      ({| connect_script := rest; settings_script := settings_script w;
          next_stream_id := next_stream_id w; reply := reply w |}, ok)
  end.

Definition sim_settings (w : world) : world * Z :=
  match settings_script w with
  | [] => (w, 0)
  | [raw] => (w, raw)
  | raw :: rest =>
      ({| connect_script := connect_script w; settings_script := rest;
          next_stream_id := next_stream_id w; reply := reply w |}, raw)
  end.

Definition sim_request (method url body : string) (headers : gmap string string)
    (w : world) : world * (string + Z) :=
  ({| connect_script := connect_script w; settings_script := settings_script w;
      next_stream_id := next_stream_id w + 2; reply := reply w |},
   inr (next_stream_id w)).

Definition sim_get_response (sid : Z) (w : world) : world * (string + Response) :=
  (w, inr {| status := fst (reply w sid); handle := sid |}).

Definition sim_read (r : Response) (w : world) : world * (string + string) :=
  (w, inr (snd (reply w (handle r)))).

#[export] Instance sim_connection : HTTP20Connection world := {
  conn_connect := sim_connect;
  conn_remote_max_concurrent_streams := sim_settings;
  conn_request := sim_request;
  conn_get_response := sim_get_response;
  conn_read := sim_read
}.

Definition dq : string := String (Ascii.ascii_of_nat 34) EmptyString.

(** The body the gateway sends with a rejection, [{"reason":"<r>"}]. *)
Definition reason_body (r : string) : string :=
  ("{" ++ dq ++ "reason" ++ dq ++ ":" ++ dq ++ r ++ dq ++ "}")%string.

(** A reader for exactly that shape, standing in for [json.loads]. *)
Definition loads_reason (s : string) : option py_value :=
  let pre := ("{" ++ dq ++ "reason" ++ dq ++ ":" ++ dq)%string in
  let post := (dq ++ "}")%string in
  let n := String.length s in
  let a := String.length pre in
  let z := String.length post in
  if (String.prefix pre s && (a + z <=? n)%nat
      && String.eqb (String.substring (n - z) z s) post)%bool
  then Some (PyDict [("reason"%string, PyStr (String.substring a (n - a - z) s))])
  else None.

#[export] Instance sim_codec : JsonCodec string := {
  json_dumps_utf8 := Some;
  utf8_decode := Some;
  json_loads := loads_reason
}.

Definition note (t : string) : Notification string := {| token := t; payload := "{}"%string |}.

Definition all_ok : Z → Z * string := fun _ => (200, ""%string).

Definition fresh (w : world) : APNsClient world := init w.

Definition peer (connects : list bool) (raws : list Z) (r : Z → Z * string) : world :=
  {| connect_script := connects; settings_script := raws; next_stream_id := 1; reply := r |}.

(** A peer that advertises 3 streams for three reads and then lowers to 1. *)
Definition lowering_peer : world := peer [] [3; 3; 3; 1] all_ok.

(** A peer that rejects every request with the given reason. *)
Definition rejecting_peer (reason : string) : world :=
  peer [] [500] (fun _ => (410, reason_body reason)).

(** A peer that answers 200 with a body that is not JSON. *)
Definition garbled_ok_peer : world := peer [] [500] (fun _ => (200, "<html>"%string)).

Definition three_notes : list (Notification string) := [note "a"; note "b"; note "c"].

(** A gateway that accepts everything: the state is the next stream id. *)
#[export] Instance accepting_connection : HTTP20Connection Z := {|
  conn_connect := fun w => (w, true);
  conn_remote_max_concurrent_streams := fun w => (w, 500);
  conn_request := fun _ _ _ _ w => (w + 2, inr w);
  conn_get_response := fun sid w => (w, inr {| status := 200; handle := sid |});
  conn_read := fun _ w => (w, inr ""%string)
|}.

End Sim.


(** * Properties *)

Section Properties.

Context {W : Type} `{HTTP20Connection W}.
Context {Payload : Type} `{JsonCodec Payload}.

Implicit Types (self : APNsClient W) (b : batch_state Payload).

Ltac unfold_monad :=
  unfold bind, ret, raise, lift_exn, lift_transport, on_connection,
    get_max_concurrent_streams, get_previous_server_max_concurrent_streams,
    set_max_concurrent_streams, set_previous_server_max_concurrent_streams in *.

Lemma bind_run {A B} (m : M A) (k : A → M B) self :
  bind m k self = match m self with
                  | (self', inr a) => k a self'
                  | (self', inl e) => (self', inl e)
                  end.
Proof. reflexivity. Qed.

Lemma ret_run {A} (a : A) self : ret a self = (self, inr a).
Proof. reflexivity. Qed.

(** ** The limit tracker *)

Lemma clamp_range raw : 1 ≤ clamp raw ≤ CONCURRENT_STREAMS_SAFETY_MAXIMUM.
Proof. unfold clamp, CONCURRENT_STREAMS_SAFETY_MAXIMUM. lia. Qed.

Lemma eq_previous_true raw previous : eq_previous raw previous = true ↔ previous = Some raw.
Proof.
  destruct previous as [p|]; simpl; [|split; discriminate].
  rewrite Z.eqb_eq. split; [intros ->; reflexivity | intros [= ->]; reflexivity].
Qed.

(** One call of the tracker, in closed form: it always returns [None]; it logs
    one settings read; the last-seen raw value is the one just read; the
    effective limit is untouched when that value was already the last seen, and
    its clamp otherwise. *)
Lemma update_max_concurrent_streams_run self :
  let wr := conn_remote_max_concurrent_streams (connection self) in
  update_max_concurrent_streams self =
    ({| connection := fst wr;
        max_concurrent_streams :=
          if eq_previous (snd wr) (previous_server_max_concurrent_streams self)
          then max_concurrent_streams self else Some (clamp (snd wr));
        previous_server_max_concurrent_streams := Some (snd wr);
        trace := trace self ++ [EvSettings (snd wr)] |}, inr PyNone).
Proof.
  unfold update_max_concurrent_streams. unfold_monad.
  destruct (conn_remote_max_concurrent_streams (connection self)) as [w raw]. simpl.
  destruct (eq_previous raw (previous_server_max_concurrent_streams self)) eqn:E.
  - apply eq_previous_true in E. rewrite E. reflexivity.
  - unfold clamp, CONCURRENT_STREAMS_SAFETY_MAXIMUM.
    destruct (raw >? 1000) eqn:E1; simpl.
    + apply Z.gtb_lt in E1. do 3 f_equal. lia.
    + destruct (raw <? 1) eqn:E2; simpl.
      * apply Z.ltb_lt in E2. do 3 f_equal. lia.
      * apply Z.ltb_ge in E2. rewrite Z.gtb_ltb in E1. apply Z.ltb_ge in E1.
        do 3 f_equal. lia.
Qed.

Lemma update_max_concurrent_streams_inv self :
  client_inv self → client_inv (fst (update_max_concurrent_streams self)).
Proof.
  intros Hinv. rewrite update_max_concurrent_streams_run. unfold client_inv in *. simpl.
  destruct (eq_previous _ _) eqn:E; [|reflexivity].
  apply eq_previous_true in E. rewrite Hinv, E. reflexivity.
Qed.

(** C4: when the raw value the peer reports differs from the last one seen,
    the tracker sets the effective limit to a value in [[1, 1000]]: 1000 for
    raw values above 1000, 1 for raw values below 1, the raw value itself in
    between; so 0, 1, 500, 1000, 1001, 5000 give 1, 1, 500, 1000, 1000, 1000. *)
Theorem update_max_concurrent_streams_clamps self (raw : Z) :
  snd (conn_remote_max_concurrent_streams (connection self)) = raw →
  previous_server_max_concurrent_streams self ≠ Some raw →
  ∃ limit,
    max_concurrent_streams (fst (update_max_concurrent_streams self)) = Some limit
    ∧ 1 ≤ limit ≤ 1000
    ∧ (1000 < raw → limit = 1000)
    ∧ (raw < 1 → limit = 1)
    ∧ (1 ≤ raw ≤ 1000 → limit = raw)
    ∧ (∀ expected, (raw, expected) ∈ clamp_table → limit = expected).
Proof.
  intros Hraw Hnew. rewrite update_max_concurrent_streams_run. simpl. rewrite Hraw.
  destruct (eq_previous raw _) eqn:E.
  { apply eq_previous_true in E. contradiction. }
  exists (clamp raw). split; [reflexivity|].
  pose proof (clamp_range raw) as Hr.
  unfold clamp, CONCURRENT_STREAMS_SAFETY_MAXIMUM in *.
  repeat split; try lia.
  intros expected Hin. unfold clamp_table in Hin.
  repeat (apply elem_of_cons in Hin as [[= -> ->] | Hin]; [reflexivity|]).
  inversion Hin.
Qed.

(** C5, as the code has it: the tracker returns [None] on every path, and it
    is idempotent: when the peer's raw value is the same at the second call,
    the second call leaves the effective limit and the last-seen raw value
    as the first call left them. *)
Theorem update_max_concurrent_streams_idempotent self :
  let first := update_max_concurrent_streams self in
  let second := update_max_concurrent_streams (fst first) in
  snd (conn_remote_max_concurrent_streams (connection (fst first)))
  = snd (conn_remote_max_concurrent_streams (connection self)) →
  snd first = inr PyNone
  ∧ snd second = inr PyNone
  ∧ max_concurrent_streams (fst second) = max_concurrent_streams (fst first)
  ∧ previous_server_max_concurrent_streams (fst second)
    = previous_server_max_concurrent_streams (fst first).
Proof.
  intros first second. subst first second.
  rewrite !update_max_concurrent_streams_run. simpl. intros Hsame.
  rewrite Hsame. repeat split; try reflexivity.
  rewrite Z.eqb_refl. reflexivity.
Qed.

(** ** connect *)

Lemma connect_loop_run (retries : nat) self :
  (retries ≤ MAX_CONNECTION_RETRIES)%nat →
  ∃ attempts : list bool,
    trace (fst (connect_loop retries self)) = trace self ++ (EvConnect <$> attempts)
    ∧ max_concurrent_streams (fst (connect_loop retries self)) = max_concurrent_streams self
    ∧ previous_server_max_concurrent_streams (fst (connect_loop retries self))
      = previous_server_max_concurrent_streams self
    ∧ (retries + length attempts ≤ MAX_CONNECTION_RETRIES)%nat
    ∧ ((snd (connect_loop retries self) = inr PyNone
        ∧ ∃ k, attempts = repeat false k ++ [true])
       ∨ (snd (connect_loop retries self) = inl ConnectionFailed
          ∧ attempts = repeat false (MAX_CONNECTION_RETRIES - retries))).
Proof.
  funelim (connect_loop retries self); intros Hle.
  all: try match goal with
    | Hc : on_connection _ _ _ = (_, inl _) |- _ =>
        unfold on_connection in Hc; destruct (conn_connect _); discriminate
    end.
  all: try match goal with
    | Hc : on_connection _ _ _ = _ |- _ =>
        unfold on_connection in Hc;
        destruct (conn_connect (connection self)) as [w ok] eqn:Ew;
        injection Hc as <- Hok; subst ok
    end.
  - (* the bound is reached *)
    exists []. simpl. rewrite app_nil_r.
    replace (MAX_CONNECTION_RETRIES - retries)%nat with 0%nat by lia.
    repeat split; try reflexivity; try lia. right. split; reflexivity.
  - (* the attempt succeeded *)
    exists [true]. simpl. repeat split; try reflexivity; try lia.
    left. split; [reflexivity|]. exists 0%nat. reflexivity.
  - (* the attempt failed: one more round *)
    match goal with
    | IH : (S retries ≤ _)%nat → _ |- _ => destruct IH as (att & Ht & Hm & Hp & Hl & Hr); [lia|]
    end.
    simpl in Ht, Hm, Hp. exists (false :: att). simpl.
    rewrite Ht, Hm, Hp, <- app_assoc. simpl. repeat split; try reflexivity; try lia.
    destruct Hr as [[Hs [k ->]] | [Hs ->]].
    + left. split; [exact Hs|]. exists (S k). reflexivity.
    + right. split; [exact Hs|].
      replace (MAX_CONNECTION_RETRIES - retries)%nat
        with (S (MAX_CONNECTION_RETRIES - S retries)) by lia.
      reflexivity.
Qed.

(** C8: [connect] makes at most 3 attempts; a successful attempt is the last
    one made; three failed attempts raise [ConnectionFailed] and there is no
    fourth. *)
Theorem connect_at_most_three_attempts self :
  ∃ attempts : list bool,
    trace (fst (connect self)) = trace self ++ (EvConnect <$> attempts)
    ∧ (length attempts ≤ 3)%nat
    ∧ ((snd (connect self) = inr PyNone ∧ ∃ k, attempts = repeat false k ++ [true])
       ∨ (snd (connect self) = inl ConnectionFailed ∧ attempts = [false; false; false])).
Proof.
  destruct (connect_loop_run 0 self) as (att & Ht & _ & _ & Hl & Hr).
  { unfold MAX_CONNECTION_RETRIES. lia. }
  exists att. unfold connect. split; [exact Ht|]. split; [exact Hl|]. exact Hr.
Qed.

(** ** The request of one notification *)

(** ['%d' % n] is the decimal numeral of [n]: reading it back gives [n]. *)
Lemma format_d_decimal (n : Z) :
  Z.of_int <$> NilZero.int_of_string (format_d n) = Some n.
Proof.
  unfold format_d. rewrite NilZero.isi.
  - simpl. f_equal. apply DecimalZ.of_to.
  - destruct n; simpl; intros [= E]; try discriminate.
    exact (Unsigned.to_uint_nonnil _ E).
  - destruct n; simpl; intros [= E]; try discriminate.
    exact (Unsigned.to_uint_nonnil _ E).
Qed.

Lemma send_notification_async_run self token_hex notification topic priority expiration :
  send_notification_async token_hex notification topic priority expiration self =
    match json_dumps_utf8 notification with
    | None => (self, inl SerializeError)
    | Some body =>
        let headers := request_headers topic priority expiration in
        let url := ("/3/device/" ++ token_hex)%string in
        let wr := conn_request "POST" url body headers (connection self) in
        ({| connection := fst wr;
            max_concurrent_streams := max_concurrent_streams self;
            previous_server_max_concurrent_streams :=
              previous_server_max_concurrent_streams self;
            trace := trace self ++ [EvRequest "POST" url body headers (snd wr)] |},
         match snd wr with
         | inr sid => inr sid
         | inl what => inl (TransportError what)
         end)
    end.
Proof.
  unfold send_notification_async. unfold_monad.
  destruct (json_dumps_utf8 notification) as [body|]; [|reflexivity].
  destruct (conn_request _ _ _ _ _) as [w [what|sid]]; reflexivity.
Qed.

Lemma requested_headers_app (t1 t2 : list event) :
  requested_headers (t1 ++ t2) = requested_headers t1 ++ requested_headers t2.
Proof. unfold requested_headers. rewrite map_app, concat_app. reflexivity. Qed.

(** C9: the request [send_notification_async] submits carries [apns-topic]
    always, [apns-priority] exactly when the priority is not [Immediate] (then
    with value 5), and [apns-expiration] exactly when an expiration is given,
    as its decimal numeral; default priority and no expiration give the topic
    header alone, delayed priority and expiration 100 give all three. *)
Theorem send_notification_async_headers self token_hex notification topic priority
    (expiration : option Z) :
  let headers := request_headers topic priority expiration in
  requested_headers
    (trace (fst (send_notification_async token_hex notification topic priority expiration self)))
  = requested_headers (trace self)
    ++ match json_dumps_utf8 notification with Some _ => [headers] | None => [] end
  ∧ headers !! "apns-topic"%string = Some topic
  ∧ headers !! "apns-priority"%string
    = match priority with Immediate => None | Delayed => Some "5"%string end
  ∧ headers !! "apns-expiration"%string = format_d <$> expiration
  ∧ (∀ n, expiration = Some n →
       Z.of_int <$> (headers !! "apns-expiration"%string ≫= NilZero.int_of_string) = Some n)
  ∧ (∀ name, is_Some (headers !! name) →
       name ∈ ["apns-topic"; "apns-priority"; "apns-expiration"]%string)
  ∧ request_headers topic Immediate None = {[ "apns-topic"%string := topic ]}
  ∧ request_headers topic Delayed (Some 100)
    = <[ "apns-expiration"%string := "100"%string ]>
        (<[ "apns-priority"%string := "5"%string ]> {[ "apns-topic"%string := topic ]}).
Proof.
  intros headers. split.
  { rewrite send_notification_async_run.
    destruct (json_dumps_utf8 notification) as [body|]; simpl.
    - rewrite requested_headers_app. reflexivity.
    - rewrite app_nil_r. reflexivity. }
  subst headers. unfold request_headers, DEFAULT_APNS_PRIORITY.
  repeat split.
  - destruct priority, expiration; simpl; simplify_map_eq; reflexivity.
  - destruct priority, expiration; simpl; simplify_map_eq; reflexivity.
  - destruct priority, expiration; simpl; simplify_map_eq; reflexivity.
  - intros n ->. destruct priority; simpl; simplify_map_eq; apply format_d_decimal.
  - intros name [v Hv]. rewrite !elem_of_cons.
    destruct (decide (name = "apns-topic"%string)) as [->|]; [tauto|].
    destruct (decide (name = "apns-priority"%string)) as [->|]; [tauto|].
    destruct (decide (name = "apns-expiration"%string)) as [->|]; [tauto|].
    exfalso. destruct priority, expiration; simpl in Hv; simplify_map_eq.
Qed.

(** ** The result of one stream *)

Lemma get_notification_result_run self sid :
  let wr := conn_get_response sid (connection self) in
  get_notification_result sid self =
    match snd wr with
    | inl what =>
        ({| connection := fst wr;
            max_concurrent_streams := max_concurrent_streams self;
            previous_server_max_concurrent_streams :=
              previous_server_max_concurrent_streams self;
            trace := trace self ++ [EvGetResponse sid] |}, inl (TransportError what))
    | inr response =>
        if status response =? 200 then
          ({| connection := fst wr;
              max_concurrent_streams := max_concurrent_streams self;
              previous_server_max_concurrent_streams :=
                previous_server_max_concurrent_streams self;
              trace := trace self ++ [EvGetResponse sid] |}, inr (PyStr "Success"))
        else
          let wb := conn_read response (fst wr) in
          ({| connection := fst wb;
              max_concurrent_streams := max_concurrent_streams self;
              previous_server_max_concurrent_streams :=
                previous_server_max_concurrent_streams self;
              trace := trace self ++ [EvGetResponse sid; EvRead sid] |},
           match snd wb with
           | inl what => inl (TransportError what)
           | inr bytes => reason_of_body bytes
           end)
    end.
Proof.
  unfold get_notification_result, reason_of_body. unfold_monad.
  destruct (conn_get_response sid (connection self)) as [w [what|response]]; simpl;
    [reflexivity|].
  destruct (status response =? 200); [reflexivity|]. simpl.
  destruct (conn_read response w) as [w' [what|bytes]]; simpl;
    rewrite <- app_assoc; simpl; [reflexivity|].
  destruct (utf8_decode bytes) as [text|]; [|reflexivity].
  destruct (json_loads text) as [data|]; [|reflexivity].
  destruct (py_getitem data "reason"); reflexivity.
Qed.

(** C10: on a response with status 200 the result is ['Success'] and the body
    is never read, whatever it holds and whatever the codec would make of it;
    on any other status the body is read, decoded and parsed, and the result
    is its [reason] field. *)
Theorem get_notification_result_by_status self sid (w : W) (response : Response) :
  conn_get_response sid (connection self) = (w, inr response) →
  let out := get_notification_result sid self in
  (status response = 200 →
     snd out = inr (PyStr "Success")
     ∧ trace (fst out) = trace self ++ [EvGetResponse sid]
     ∧ reads (trace (fst out)) = reads (trace self)
     ∧ connection (fst out) = w)
  ∧ (status response ≠ 200 →
     trace (fst out) = trace self ++ [EvGetResponse sid; EvRead sid]
     ∧ connection (fst out) = fst (conn_read response w)
     ∧ snd out = match snd (conn_read response w) with
                 | inl what => inl (TransportError what)
                 | inr bytes => reason_of_body bytes
                 end
     ∧ ∀ bytes text items reason,
         snd (conn_read response w) = inr bytes →
         utf8_decode bytes = Some text →
         json_loads text = Some (PyDict items) →
         dict_get items "reason" = Some reason →
         snd out = inr reason).
Proof.
  intros Hresp out. subst out. rewrite get_notification_result_run, Hresp. simpl.
  split; intros Hst.
  - rewrite Hst. simpl. repeat split.
    unfold reads. rewrite map_app, concat_app. simpl. apply app_nil_r.
  - apply Z.eqb_neq in Hst. rewrite Hst. simpl. repeat split.
    intros bytes text items reason -> Hd Hl Hg.
    unfold reason_of_body. rewrite Hd, Hl. simpl. rewrite Hg. reflexivity.
Qed.

(** ** One notification, synchronously *)

Lemma py_ne_str_false (v : py_value) (s : string) : py_ne_str v s = false ↔ v = PyStr s.
Proof.
  destruct v; simpl; try (split; discriminate).
  rewrite negb_false_iff, String.eqb_eq. split; [intros ->; reflexivity | intros [= ->]; reflexivity].
Qed.

(** C7, as the code has it: [send_notification] raises the typed error for
    the value [get_notification_result] returned exactly when that value is
    not the string ['Success'], and returns normally when it is; a 200
    response always gives that string, and any other response gives the
    [reason] field of its body, whatever that field holds. *)
Theorem send_notification_raises_unless_success_string self token_hex notification topic
    priority expiration (self1 self2 : APNsClient W) (sid : Z) (result : py_value) :
  send_notification_async token_hex notification topic priority expiration self
  = (self1, inr sid) →
  get_notification_result sid self1 = (self2, inr result) →
  let out := send_notification token_hex notification topic priority expiration self in
  (result = PyStr "Success" → out = (self2, inr PyNone))
  ∧ (result ≠ PyStr "Success" → out = (self2, inl (exception_class_for_reason result)))
  ∧ (∀ w response,
       conn_get_response sid (connection self1) = (w, inr response) →
       (status response = 200 → result = PyStr "Success")
       ∧ (status response ≠ 200 →
          ∃ bytes, snd (conn_read response w) = inr bytes
                   ∧ reason_of_body bytes = inr result)).
Proof.
  intros Hsend Hget out. subst out. unfold send_notification, bind.
  rewrite Hsend, Hget. split; [|split].
  - intros ->. reflexivity.
  - intros Hne. destruct (py_ne_str result "Success") eqn:E; [reflexivity|].
    apply py_ne_str_false in E. contradiction.
  - intros w response Hresp.
    rewrite get_notification_result_run, Hresp in Hget. simpl in Hget.
    split; intros Hst.
    { rewrite Hst in Hget. simpl in Hget. congruence. }
    apply Z.eqb_neq in Hst. rewrite Hst in Hget. simpl in Hget.
    destruct (snd (conn_read response w)) as [what|bytes]; [congruence|].
    exists bytes. split; [reflexivity|]. congruence.
Qed.

(** ** One iteration of the batch loop *)

(** An iteration refreshes the limit and then does one of three things: it
    submits the next notification, it waits for the oldest open stream, or it
    fails in the scheduler's own statements. *)
Lemma batch_iteration_cases topic priority expiration b self :
  let self1 := fst (update_max_concurrent_streams self) in
  let out := batch_iteration topic priority expiration b self in
  (∃ n l, next_notification b = Some n
          ∧ max_concurrent_streams self1 = Some l
          ∧ Z.of_nat (length (open_streams b)) < l
          ∧ out = match send_notification_async (token n) (payload n) topic priority
                          expiration self1 with
                  | (self2, inr sid) => (self2, inr (after_submit b n sid))
                  | (self2, inl e) => (self2, inl e)
                  end)
  ∨ (∃ pending_stream rest,
        open_streams b = pending_stream :: rest
        ∧ (next_notification b = None
           ∨ ∃ l, max_concurrent_streams self1 = Some l
                  ∧ l ≤ Z.of_nat (length (open_streams b)))
        ∧ out = match get_notification_result (stream_id pending_stream) self1 with
                | (self2, inr result) => (self2, inr (after_drain b pending_stream rest result))
                | (self2, inl e) => (self2, inl e)
                end)
  ∨ (∃ e, out = (self1, inl e) ∧ scheduler_fault e = true
          ∧ ((∃ n, next_notification b = Some n) ∧ max_concurrent_streams self1 = None
             ∨ open_streams b = []
               ∧ (next_notification b = None
                  ∨ ∃ l, max_concurrent_streams self1 = Some l ∧ l ≤ 0))).
Proof.
  intros self1 out. subst out self1. unfold batch_iteration. rewrite bind_run.
  pose proof (update_max_concurrent_streams_run self) as Hup. simpl in Hup.
  destruct (update_max_concurrent_streams self) as [self1 r].
  injection Hup as _ ->. simpl fst.
  rewrite bind_run. unfold should_send_notification.
  destruct (next_notification b) as [n|] eqn:En.
  - rewrite bind_run. unfold get_max_concurrent_streams.
    destruct (max_concurrent_streams self1) as [l|] eqn:El.
    + rewrite ret_run. destruct (Z.of_nat (length (open_streams b)) <? l) eqn:Elt.
      * left. exists n, l. apply Z.ltb_lt in Elt. repeat split; try assumption.
        rewrite bind_run.
        destruct (send_notification_async _ _ _ _ _ _) as [self2 [e|sid]]; [reflexivity|].
        unfold after_submit. destruct (advance (notification_iterator b)); reflexivity.
      * apply Z.ltb_ge in Elt. destruct (open_streams b) as [|p rest] eqn:Eo.
        -- right. right. exists IndexError. split; [reflexivity|]. split; [reflexivity|].
           right. split; [reflexivity|]. right. exists l. simpl in Elt. split; [reflexivity|lia].
        -- right. left. exists p, rest. split; [reflexivity|]. split.
           { right. exists l. split; [reflexivity | exact Elt]. }
           rewrite bind_run.
           destruct (get_notification_result _ _) as [self2 [e|result]]; [reflexivity|].
           unfold after_drain. rewrite En. reflexivity.
    + right. right. exists (TypeError Unorderable).
      split; [reflexivity|]. split; [reflexivity|].
      left. split; [exists n; reflexivity | reflexivity].
  - rewrite ret_run. destruct (open_streams b) as [|p rest] eqn:Eo.
    + right. right. exists IndexError. split; [reflexivity|]. split; [reflexivity|].
      right. split; [reflexivity|]. left. reflexivity.
    + right. left. exists p, rest. split; [reflexivity|]. split; [left; reflexivity|].
      rewrite bind_run.
      destruct (get_notification_result _ _) as [self2 [e|result]]; [reflexivity|].
      unfold after_drain. rewrite En. reflexivity.
Qed.

Lemma reason_of_body_fault bytes e :
  reason_of_body bytes = inl e → scheduler_fault e = false.
Proof.
  unfold reason_of_body, py_getitem.
  destruct (utf8_decode bytes) as [text|]; [|intros [= <-]; reflexivity].
  destruct (json_loads text) as [data|]; [|intros [= <-]; reflexivity].
  destruct data; try (intros [= <-]; reflexivity).
  destruct (dict_get items "reason"); [discriminate | intros [= <-]; reflexivity].
Qed.

(** What one iteration does to the client and to the log.  The settings read
    comes first; then an admission logs the request, a drain logs the
    [get_response] on the head of the queue (and the read of the body, when
    there is one), and a fault of the scheduler logs nothing. *)
Lemma batch_iteration_effect topic priority expiration b self :
  let out := batch_iteration topic priority expiration b self in
  let raw := snd (conn_remote_max_concurrent_streams (connection self)) in
  ∃ evs,
    trace (fst out) = trace self ++ EvSettings raw :: evs
    ∧ previous_server_max_concurrent_streams (fst out) = Some raw
    ∧ max_concurrent_streams (fst out)
      = (if eq_previous raw (previous_server_max_concurrent_streams self)
         then max_concurrent_streams self else Some (clamp raw))
    ∧ ((∃ n l, next_notification b = Some n
               ∧ max_concurrent_streams (fst out) = Some l
               ∧ Z.of_nat (length (open_streams b)) < l
               ∧ ((∃ sid url body headers,
                      evs = [EvRequest "POST" url body headers (inr sid)]
                      ∧ snd out = inr (after_submit b n sid))
                  ∨ (∃ e, snd out = inl e ∧ scheduler_fault e = false
                          ∧ (evs = []
                             ∨ ∃ url body headers what,
                                 evs = [EvRequest "POST" url body headers (inl what)]))))
       ∨ (∃ pending_stream rest,
             open_streams b = pending_stream :: rest
             ∧ (next_notification b = None
                ∨ ∃ l, max_concurrent_streams (fst out) = Some l
                       ∧ l ≤ Z.of_nat (length (open_streams b)))
             ∧ (evs = [EvGetResponse (stream_id pending_stream)]
                ∨ evs = [EvGetResponse (stream_id pending_stream);
                         EvRead (stream_id pending_stream)])
             ∧ ((∃ result, snd out = inr (after_drain b pending_stream rest result))
                ∨ (∃ e, snd out = inl e ∧ scheduler_fault e = false)))
       ∨ (∃ e, evs = [] ∧ snd out = inl e ∧ scheduler_fault e = true
               ∧ ((∃ n, next_notification b = Some n)
                  ∧ max_concurrent_streams (fst out) = None
                  ∨ open_streams b = []
                    ∧ (next_notification b = None
                       ∨ ∃ l, max_concurrent_streams (fst out) = Some l ∧ l ≤ 0)))).
Proof.
  intros out raw. subst out raw.
  pose proof (batch_iteration_cases topic priority expiration b self) as Hc.
  pose proof (update_max_concurrent_streams_run self) as Hup.
  simpl in Hc, Hup. rewrite Hup in Hc. simpl in Hc.
  set (self1 := {| connection := _ |}) in Hc. clear Hup.
  destruct Hc as [(n & l & Hn & Hl & Hlt & Hout) | [(p & rest & Ho & Hwhy & Hout) | (e & Hout & He & Hwhy)]].
  - rewrite send_notification_async_run in Hout.
    destruct (json_dumps_utf8 (payload n)) as [body|].
    + simpl in Hout.
      destruct (conn_request _ _ _ _ _) as [w [what|sid]] eqn:Er; simpl in Hout;
        rewrite Hout; simpl; eexists; (split; [rewrite <- app_assoc; reflexivity|]);
        (split; [reflexivity|]); (split; [reflexivity|]); left; exists n, l;
        (split; [exact Hn|]); (split; [exact Hl|]); (split; [exact Hlt|]).
      * right. eexists. split; [reflexivity|]. split; [reflexivity|].
        right. do 4 eexists. reflexivity.
      * left. do 4 eexists. split; reflexivity.
    + rewrite Hout. simpl. exists []. repeat split.
      left. exists n, l. repeat split; try assumption.
      right. exists SerializeError. repeat split. left. reflexivity.
  - rewrite get_notification_result_run in Hout. simpl in Hout.
    destruct (conn_get_response _ _) as [w [what|response]]; simpl in Hout.
    + rewrite Hout. simpl. eexists. split; [rewrite <- app_assoc; reflexivity|].
      split; [reflexivity|]. split; [reflexivity|]. right. left. exists p, rest.
      split; [exact Ho|]. split; [exact Hwhy|]. split; [left; reflexivity|].
      right. eexists. split; reflexivity.
    + destruct (status response =? 200).
      * rewrite Hout. simpl. eexists. split; [rewrite <- app_assoc; reflexivity|].
        split; [reflexivity|]. split; [reflexivity|]. right. left. exists p, rest.
        split; [exact Ho|]. split; [exact Hwhy|]. split; [left; reflexivity|].
        left. eexists. reflexivity.
      * destruct (conn_read response w) as [w' [what|bytes]]; simpl in Hout.
        -- rewrite Hout. simpl. eexists. split; [rewrite <- app_assoc; reflexivity|].
           split; [reflexivity|]. split; [reflexivity|]. right. left. exists p, rest.
           split; [exact Ho|]. split; [exact Hwhy|]. split; [right; reflexivity|].
           right. eexists. split; reflexivity.
        -- destruct (reason_of_body bytes) as [e|result] eqn:Eb;
             rewrite Hout; simpl; eexists; (split; [rewrite <- app_assoc; reflexivity|]);
             (split; [reflexivity|]); (split; [reflexivity|]); right; left; exists p, rest;
             (split; [exact Ho|]); (split; [exact Hwhy|]); (split; [right; reflexivity|]).
           ++ right. exists e. split; [reflexivity|]. eapply reason_of_body_fault, Eb.
           ++ left. eexists. reflexivity.
  - rewrite Hout. simpl. exists []. split; [reflexivity|].
    split; [reflexivity|]. split; [reflexivity|]. right. right. exists e.
    split; [reflexivity|]. split; [reflexivity|]. split; [exact He | exact Hwhy].
Qed.

(** ** The loop *)

Lemma pending_after_submit b n sid :
  next_notification b = Some n → (pending (after_submit b n sid) + 1 = pending b)%nat.
Proof.
  intros Hn. unfold pending, after_submit. simpl. rewrite Hn, length_app. simpl.
  destruct (notification_iterator b); simpl; lia.
Qed.

Lemma pending_after_drain b pending_stream rest result :
  open_streams b = pending_stream :: rest →
  (pending (after_drain b pending_stream rest result) + 1 = pending b)%nat.
Proof. intros Ho. unfold pending, after_drain. simpl. rewrite Ho. simpl. lia. Qed.

(** Every iteration that completes takes one step off what is left to do: it
    either lengthens the queue by one submitted notification or shortens it by
    one after_drain stream. *)
Lemma batch_iteration_progress topic priority expiration b self b' :
  snd (batch_iteration topic priority expiration b self) = inr b' →
  (pending b' + 1 = pending b)%nat
  ∧ (length (open_streams b') = S (length (open_streams b))
     ∨ S (length (open_streams b')) = length (open_streams b)).
Proof.
  intros Hout.
  destruct (batch_iteration_effect topic priority expiration b self)
    as (evs & _ & _ & _ & [(n & l & Hn & _ & _ & Hr) | [(p & rest & Ho & _ & _ & Hr) | (e & _ & Hr & _)]]).
  - destruct Hr as [(sid & ? & ? & ? & _ & Hr) | (e & Hr & _)]; [|congruence].
    rewrite Hr in Hout. injection Hout as <-. split; [apply pending_after_submit, Hn|].
    left. simpl. rewrite length_app. simpl. lia.
  - destruct Hr as [(result & Hr) | (e & Hr & _)]; [|congruence].
    rewrite Hr in Hout. injection Hout as <-. split; [apply pending_after_drain, Ho|].
    right. simpl. rewrite Ho. reflexivity.
  - congruence.
Qed.

(** The invariant rule of the loop: given enough iterations for what is left
    to do, the loop returns; an invariant of the iterations holds at exit
    together with the negated loop test, and an error is one an iteration
    raised. *)
Lemma batch_loop_rule (I : batch_state Payload → APNsClient W → Prop)
    (E : APNsClient W → exn → Prop) topic priority expiration :
  (∀ b self, I b self → loop_test b = true →
     let out := batch_iteration topic priority expiration b self in
     match snd out with
     | inr b' => I b' (fst out)
     | inl e => E (fst out) e
     end) →
  ∀ fuel b self, I b self → (pending b < fuel)%nat →
    ∃ self' r, batch_loop fuel topic priority expiration b self = Some (self', r)
               ∧ match r with
                 | inr b' => I b' self' ∧ loop_test b' = false
                 | inl e => E self' e
                 end.
Proof.
  intros Hstep. induction fuel as [|fuel IH]; intros b self HI Hfuel; [lia|].
  simpl. destruct (loop_test b) eqn:Et.
  - specialize (Hstep b self HI Et). simpl in Hstep.
    pose proof (batch_iteration_progress topic priority expiration b self) as Hp.
    destruct (batch_iteration topic priority expiration b self) as [self1 [e|b1]]; simpl in *.
    + exists self1, (inl e). split; [reflexivity | exact Hstep].
    + destruct (Hp b1 eq_refl) as [Hp1 _]. apply IH; [exact Hstep | lia].
  - exists self, (inr b). split; [reflexivity|]. split; assumption.
Qed.

(** The same rule for the states the loop passes through. *)
Lemma iterate_rule (I : batch_state Payload → APNsClient W → Prop) topic priority expiration :
  (∀ b self, I b self → loop_test b = true →
     let out := batch_iteration topic priority expiration b self in
     match snd out with
     | inr b' => I b' (fst out)
     | inl e => True
     end) →
  ∀ n b self self' b', I b self →
    iterate n topic priority expiration b self = (self', inr b') → I b' self'.
Proof.
  intros Hstep. induction n as [|n IH]; intros b self self' b' HI Hrun; simpl in Hrun.
  - injection Hrun as <- <-. exact HI.
  - destruct (loop_test b) eqn:Et; [|injection Hrun as <- <-; exact HI].
    specialize (Hstep b self HI Et). simpl in Hstep.
    destruct (batch_iteration topic priority expiration b self) as [self1 [e|b1]];
      simpl in *; [discriminate|].
    eapply IH; [exact Hstep | exact Hrun].
Qed.

(** More iterations than needed change nothing. *)
Lemma batch_loop_fuel_monotone topic priority expiration (fuel k : nat) :
  ∀ b self out,
    batch_loop fuel topic priority expiration b self = Some out →
    batch_loop (fuel + k) topic priority expiration b self = Some out.
Proof.
  induction fuel as [|fuel IH]; intros b self out Hrun; simpl in *.
  - destruct (loop_test b) eqn:Et; [discriminate|].
    destruct k; simpl; rewrite Et; exact Hrun.
  - destruct (loop_test b); [|exact Hrun].
    destruct (batch_iteration topic priority expiration b self) as [self1 [e|b1]];
      [exact Hrun | apply IH, Hrun].
Qed.

Lemma loop_test_false b :
  loop_test b = false ↔ next_notification b = None ∧ open_streams b = [].
Proof.
  unfold loop_test. rewrite orb_false_iff.
  destruct (next_notification b), (open_streams b); simpl; split; intros [? ?];
    try discriminate; split; reflexivity.
Qed.

Lemma pending_batch_start (notifications : list (Notification Payload)) :
  pending (batch_start notifications) = (2 * length notifications)%nat.
Proof. destruct notifications; unfold pending; simpl; lia. Qed.

(** The tracker's invariant goes through an iteration, and after an iteration
    the effective limit is the clamp of the raw value that iteration read. *)
Lemma batch_iteration_inv topic priority expiration b self :
  client_inv self →
  let out := batch_iteration topic priority expiration b self in
  client_inv (fst out)
  ∧ max_concurrent_streams (fst out)
    = Some (clamp (snd (conn_remote_max_concurrent_streams (connection self)))).
Proof.
  intros Hinv out. subst out.
  destruct (batch_iteration_effect topic priority expiration b self)
    as (evs & _ & Hp & Hm & _).
  simpl in Hp, Hm. unfold client_inv in *. rewrite Hm, Hp. simpl.
  destruct (eq_previous _ _) eqn:E; [|split; reflexivity].
  apply eq_previous_true in E. rewrite Hinv, E. split; reflexivity.
Qed.

(** The invariant holds of a new client and goes through [connect] and
    through a whole batch, so it holds of every client the methods can be
    called on. *)
Lemma client_inv_init (w : W) : client_inv (init w).
Proof. reflexivity. Qed.

Lemma connect_inv self : client_inv self → client_inv (fst (connect self)).
Proof.
  intros Hinv. destruct (connect_loop_run 0 self) as (att & _ & Hm & Hp & _).
  { unfold MAX_CONNECTION_RETRIES. lia. }
  unfold client_inv, connect in *. rewrite Hm, Hp. exact Hinv.
Qed.

Lemma send_notification_batch_inv self (notifications : list (Notification Payload))
    topic priority expiration (fuel : nat) self' r :
  client_inv self →
  send_notification_batch fuel notifications topic priority expiration self = Some (self', r) →
  client_inv self'.
Proof.
  intros Hinv. unfold send_notification_batch.
  pose proof (connect_inv self Hinv) as Hinv0.
  destruct (connect self) as [self0 [e|?]]; simpl in Hinv0; [intros [= <- _]; exact Hinv0|].
  generalize (batch_start notifications). revert self0 Hinv0.
  induction fuel as [|fuel IH]; intros self0 Hinv0 b; simpl.
  - destruct (loop_test b); [discriminate | intros [= <- _]; exact Hinv0].
  - destruct (loop_test b); [|intros [= <- _]; exact Hinv0].
    destruct (batch_iteration_inv topic priority expiration b self0 Hinv0) as [Hinv1 _].
    destruct (batch_iteration topic priority expiration b self0) as [self1 [e|b1]];
      simpl in Hinv1; [intros [= <- _]; exact Hinv1 | apply IH, Hinv1].
Qed.

Lemma loop_test_pending b : loop_test b = true → (1 ≤ pending b)%nat.
Proof.
  unfold loop_test, pending.
  destruct (next_notification b), (open_streams b); simpl; intros; try discriminate; lia.
Qed.

Lemma update_sets_limit self :
  client_inv self →
  max_concurrent_streams (fst (update_max_concurrent_streams self))
  = Some (clamp (snd (conn_remote_max_concurrent_streams (connection self)))).
Proof.
  intros Hinv. rewrite update_max_concurrent_streams_run. simpl.
  destruct (eq_previous _ _) eqn:E; [|reflexivity].
  apply eq_previous_true in E. unfold client_inv in Hinv. rewrite Hinv, E. reflexivity.
Qed.

(** Where the error of a submission comes from. *)
Lemma send_notification_async_error self (n : Notification Payload) topic priority expiration
    (self2 : APNsClient W) (e : exn) :
  send_notification_async (token n) (payload n) topic priority expiration self = (self2, inl e) →
  submission_error topic priority expiration n self e.
Proof.
  rewrite send_notification_async_run. unfold submission_error.
  destruct (json_dumps_utf8 (payload n)) as [body|]; [|intros [= _ <-]; left; split; reflexivity].
  simpl. destruct (conn_request _ _ _ _ _) as [w [what|sid]] eqn:Er; simpl; [|discriminate].
  intros [= _ <-]. right. exists body, what. rewrite Er. repeat split.
Qed.

(** Where the error of a drain comes from. *)
Lemma get_notification_result_error self (sid : Z) (self2 : APNsClient W) (e : exn) :
  get_notification_result sid self = (self2, inl e) → drain_error sid self e.
Proof.
  rewrite get_notification_result_run. simpl. unfold drain_error.
  destruct (conn_get_response sid (connection self)) as [w [what|response]] eqn:Eg; simpl.
  { intros [= _ <-]. left. exists what. split; reflexivity. }
  destruct (status response =? 200) eqn:Es; [discriminate|]. apply Z.eqb_neq in Es.
  intros Hout. right. exists w, response. split; [reflexivity|]. split; [exact Es|].
  destruct (conn_read response w) as [w' [what|bytes]]; simpl in Hout |- *.
  - injection Hout as _ <-. left. exists what. split; reflexivity.
  - right. exists bytes. split; [reflexivity|]. congruence.
Qed.

(** With the limit at least 1, an iteration of a loop that has something left
    to do is one submission or one drain, and nothing else: its outcome is the
    outcome of that operation. *)
Lemma batch_iteration_attempt topic priority expiration b self :
  client_inv self → loop_test b = true →
  let self1 := fst (update_max_concurrent_streams self) in
  let out := batch_iteration topic priority expiration b self in
  (∃ n, next_notification b = Some n
        ∧ out = match send_notification_async (token n) (payload n) topic priority
                        expiration self1 with
                | (self2, inr sid) => (self2, inr (after_submit b n sid))
                | (self2, inl e) => (self2, inl e)
                end
        ∧ ∀ e, snd out = inl e → submission_error topic priority expiration n self1 e)
  ∨ (∃ pending_stream rest,
        open_streams b = pending_stream :: rest
        ∧ out = match get_notification_result (stream_id pending_stream) self1 with
                | (self2, inr result) => (self2, inr (after_drain b pending_stream rest result))
                | (self2, inl e) => (self2, inl e)
                end
        ∧ ∀ e, snd out = inl e → drain_error (stream_id pending_stream) self1 e).
Proof.
  intros Hinv Ht self1 out. subst self1 out.
  pose proof (update_sets_limit self Hinv) as Hl.
  pose proof (clamp_range (snd (conn_remote_max_concurrent_streams (connection self)))) as Hc.
  destruct (batch_iteration_cases topic priority expiration b self)
    as [(n & l & Hn & _ & _ & Hout) | [(ps & rest & Ho & _ & Hout) | (e & _ & _ & Hwhy)]].
  - left. exists n. split; [exact Hn|]. split; [exact Hout|]. intros e He.
    rewrite Hout in He.
    destruct (send_notification_async _ _ _ _ _ _) as [self2 [e'|sid]] eqn:Es;
      simpl in He; [|discriminate].
    injection He as ->. eapply send_notification_async_error, Es.
  - right. exists ps, rest. split; [exact Ho|]. split; [exact Hout|]. intros e He.
    rewrite Hout in He.
    destruct (get_notification_result _ _) as [self2 [e'|result]] eqn:Eg;
      simpl in He; [|discriminate].
    injection He as ->. eapply get_notification_result_error, Eg.
  - exfalso. rewrite Hl in Hwhy.
    destruct Hwhy as [[_ Hn] | [Ho [Hn | (l & [= <-] & Hle)]]]; [discriminate | | lia].
    assert (loop_test b = false) by (apply loop_test_false; split; assumption).
    congruence.
Qed.

(** C6: given one iteration more than what is left to do, the loop returns.
    A normal exit is in the state where no notification is left and the queue
    is empty, reached by iterating the body.  With the effective limit at least
    1 an iteration is never stuck on an empty queue: it is exactly one
    submission or one drain, it takes one step off what is left to do when that
    operation returns, and it fails only when that operation fails: the payload
    does not serialize, the connection raises on the request, on
    [get_response] or on the read, or the body gives no reason.  An error of
    the loop is the error of such an iteration. *)
Theorem batch_loop_terminates topic priority expiration b self (k : nat) :
  client_inv self →
  (∃ self' r,
      batch_loop (pending b + 1 + k) topic priority expiration b self = Some (self', r)
      ∧ match r with
        | inr b' =>
            next_notification b' = None ∧ open_streams b' = []
            ∧ iterate (pending b) topic priority expiration b self = (self', inr b')
        | inl e =>
            scheduler_fault e = false
            ∧ ∃ (m : nat) bm (selfm : APNsClient W),
                (m < pending b)%nat
                ∧ iterate m topic priority expiration b self = (selfm, inr bm)
                ∧ loop_test bm = true
                ∧ batch_iteration topic priority expiration bm selfm = (self', inl e)
                ∧ ((∃ n, next_notification bm = Some n
                         ∧ submission_error topic priority expiration n
                             (fst (update_max_concurrent_streams selfm)) e)
                   ∨ (∃ pending_stream rest,
                         open_streams bm = pending_stream :: rest
                         ∧ drain_error (stream_id pending_stream)
                             (fst (update_max_concurrent_streams selfm)) e))
        end)
  ∧ (∀ b0 (self0 : APNsClient W), client_inv self0 → loop_test b0 = true →
       let self1 := fst (update_max_concurrent_streams self0) in
       let out := batch_iteration topic priority expiration b0 self0 in
       match snd out with
       | inr b1 =>
           (pending b1 + 1 = pending b0)%nat
           ∧ (length (open_streams b1) = S (length (open_streams b0))
              ∨ S (length (open_streams b1)) = length (open_streams b0))
       | inl e => scheduler_fault e = false
       end
       ∧ ((∃ n, next_notification b0 = Some n
                ∧ out = match send_notification_async (token n) (payload n) topic priority
                                expiration self1 with
                        | (self2, inr sid) => (self2, inr (after_submit b0 n sid))
                        | (self2, inl e) => (self2, inl e)
                        end
                ∧ ∀ e, snd out = inl e →
                    submission_error topic priority expiration n self1 e)
          ∨ (∃ pending_stream rest,
                open_streams b0 = pending_stream :: rest
                ∧ out = match get_notification_result (stream_id pending_stream) self1 with
                        | (self2, inr result) =>
                            (self2, inr (after_drain b0 pending_stream rest result))
                        | (self2, inl e) => (self2, inl e)
                        end
                ∧ ∀ e, snd out = inl e →
                    drain_error (stream_id pending_stream) self1 e))).
Proof.
  intros Hinv.
  assert (Hstep : ∀ b0 (self0 : APNsClient W), client_inv self0 → loop_test b0 = true →
            match snd (batch_iteration topic priority expiration b0 self0) with
            | inr b1 =>
                (pending b1 + 1 = pending b0)%nat
                ∧ (length (open_streams b1) = S (length (open_streams b0))
                   ∨ S (length (open_streams b1)) = length (open_streams b0))
            | inl e => scheduler_fault e = false
            end).
  { intros b0 self0 Hinv0 Ht.
    pose proof (batch_iteration_progress topic priority expiration b0 self0) as Hp.
    destruct (batch_iteration_inv topic priority expiration b0 self0 Hinv0) as [_ Hl].
    destruct (batch_iteration_effect topic priority expiration b0 self0)
      as (evs & _ & _ & _ & Hcase).
    destruct (snd (batch_iteration topic priority expiration b0 self0)) as [e|b1];
      [|apply Hp; reflexivity].
    pose proof (clamp_range (snd (conn_remote_max_concurrent_streams (connection self0)))).
    destruct Hcase as [(n & l & _ & _ & _ & Hr) | [(p & rest & _ & _ & _ & Hr) | (e' & _ & _ & _ & Hr)]].
    - destruct Hr as [(? & ? & ? & ? & _ & Hr) | (e' & [= <-] & Hf & _)];
        [discriminate | exact Hf].
    - destruct Hr as [(? & Hr) | (e' & [= <-] & Hf)]; [discriminate | exact Hf].
    - exfalso. rewrite Hl in Hr.
      destruct Hr as [[_ Hr] | [Ho [Hn | (l & [= <-] & Hle)]]]; [discriminate | | lia].
      assert (loop_test b0 = false) by (apply loop_test_false; split; assumption).
      congruence. }
  split.
  2:{ intros b0 self0 Hinv0 Ht. split; [apply Hstep; assumption|].
      apply batch_iteration_attempt; assumption. }
  assert (Hloop : ∀ (p : nat) b1 (self1 : APNsClient W),
            (pending b1 ≤ p)%nat → client_inv self1 →
            ∃ self' r,
              batch_loop (S (p + k)) topic priority expiration b1 self1 = Some (self', r)
              ∧ match r with
                | inr b' =>
                    next_notification b' = None ∧ open_streams b' = []
                    ∧ iterate p topic priority expiration b1 self1 = (self', inr b')
                | inl e =>
                    scheduler_fault e = false
                    ∧ ∃ (m : nat) bm (selfm : APNsClient W),
                        (m < p)%nat
                        ∧ iterate m topic priority expiration b1 self1 = (selfm, inr bm)
                        ∧ loop_test bm = true
                        ∧ batch_iteration topic priority expiration bm selfm = (self', inl e)
                        ∧ ((∃ n, next_notification bm = Some n
                                 ∧ submission_error topic priority expiration n
                                     (fst (update_max_concurrent_streams selfm)) e)
                           ∨ (∃ pending_stream rest,
                                 open_streams bm = pending_stream :: rest
                                 ∧ drain_error (stream_id pending_stream)
                                     (fst (update_max_concurrent_streams selfm)) e))
                end).
  { clear b self Hinv. induction p as [|p IH]; intros b self Hp Hinv.
    - assert (Ht : loop_test b = false).
      { destruct (loop_test b) eqn:Et; [|reflexivity].
        apply loop_test_pending in Et. lia. }
      exists self, (inr b). simpl. rewrite Ht. split; [reflexivity|].
      apply loop_test_false in Ht as [Hn Ho]. repeat split; assumption.
    - change (batch_loop (S (S p + k)) topic priority expiration b self)
        with (if loop_test b then
                match batch_iteration topic priority expiration b self with
                | (self', inr b') => batch_loop (S (p + k)) topic priority expiration b' self'
                | (self', inl e) => Some (self', inl e)
                end
              else Some (self, inr b)).
      change (iterate (S p) topic priority expiration b self)
        with (if loop_test b then
                match batch_iteration topic priority expiration b self with
                | (self', inr b') => iterate p topic priority expiration b' self'
                | (self', inl e) => (self', inl e)
                end
              else (self, inr b)).
      destruct (loop_test b) eqn:Et.
      2:{ exists self, (inr b). split; [reflexivity|].
          apply loop_test_false in Et as [Hn Ho]. repeat split; assumption. }
      pose proof (Hstep b self Hinv Et) as Hs.
      pose proof (batch_iteration_attempt topic priority expiration b self Hinv Et) as Ha.
      destruct (batch_iteration_inv topic priority expiration b self Hinv) as [Hinv1 _].
      simpl in Ha.
      destruct (batch_iteration topic priority expiration b self) as [self1 [e|b1]] eqn:Eout;
        simpl in Hs, Hinv1.
      + exists self1, (inl e). split; [reflexivity|]. split; [exact Hs|].
        exists 0%nat, b, self. split; [lia|]. split; [reflexivity|]. split; [exact Et|].
        split; [exact Eout|].
        destruct Ha as [(n & Hn & _ & He) | (ps & rest & Ho & _ & He)].
        * left. exists n. split; [exact Hn | apply He; reflexivity].
        * right. exists ps, rest. split; [exact Ho | apply He; reflexivity].
      + destruct Hs as [Hp1 _].
        destruct (IH b1 self1) as (self' & r & Hrun & Hr); [lia | exact Hinv1|].
        exists self', r. split; [exact Hrun|]. destruct r as [e|b'].
        * destruct Hr as (Hf & m & bm & selfm & Hm & Hreach & Hrest).
          split; [exact Hf|]. exists (S m), bm, selfm. split; [lia|]. split; [|exact Hrest].
          simpl. rewrite Et, Eout. exact Hreach.
        * exact Hr. }
  destruct (Hloop (pending b) b self) as (self' & r & Hrun & Hr); [lia | exact Hinv|].
  exists self', r. split; [|exact Hr].
  replace (pending b + 1 + k)%nat with (S (pending b + k)) by lia. exact Hrun.
Qed.

(** ** Completeness of the result map *)

Lemma tokens_left_batch_start (notifications : list (Notification Payload)) :
  tokens_left (batch_start notifications) = list_to_set (token <$> notifications).
Proof. destruct notifications; unfold tokens_left; simpl; set_solver. Qed.

Lemma tokens_left_after_submit b n sid :
  next_notification b = Some n →
  (next_notification b = None → notification_iterator b = []) →
  tokens_left (after_submit b n sid) = tokens_left b
  ∧ (next_notification (after_submit b n sid) = None →
     notification_iterator (after_submit b n sid) = []).
Proof.
  intros Hn _. unfold tokens_left, after_submit. simpl. rewrite Hn.
  destruct (notification_iterator b) as [|n' rest]; simpl.
  - split; [|reflexivity]. rewrite fmap_app, list_to_set_app_L. simpl. set_solver.
  - split; [|discriminate]. rewrite fmap_app, list_to_set_app_L. simpl. set_solver.
Qed.

Lemma tokens_left_after_drain b pending_stream rest result :
  open_streams b = pending_stream :: rest →
  tokens_left (after_drain b pending_stream rest result)
    ∪ dom (results (after_drain b pending_stream rest result))
  = tokens_left b ∪ dom (results b).
Proof.
  intros Ho. unfold tokens_left, after_drain. simpl. rewrite Ho, dom_insert_L. simpl.
  set_solver.
Qed.

Lemma list_to_set_size_remove_dups (l : list string) :
  size (list_to_set l : gset string) = length (remove_dups l).
Proof.
  rewrite <- (size_list_to_set (C := gset string) (remove_dups l))
    by apply NoDup_remove_dups.
  f_equal. apply set_eq. intros x.
  rewrite !elem_of_list_to_set, elem_of_remove_dups. reflexivity.
Qed.

(** C1: given enough iterations for the input, the batch call returns, and it
    returns either an error and no map, or a map whose keys are exactly the
    tokens of the input: one entry per distinct token. *)
Theorem send_notification_batch_complete self
    (notifications : list (Notification Payload)) topic priority expiration (k : nat) :
  ∃ self' r,
    send_notification_batch (2 * length notifications + 1 + k) notifications topic priority
      expiration self = Some (self', r)
    ∧ match r with
      | inr result_map =>
          dom result_map = list_to_set (token <$> notifications)
          ∧ size result_map = length (remove_dups (token <$> notifications))
      | inl _ => True
      end.
Proof.
  unfold send_notification_batch.
  destruct (connect self) as [self0 [e|?]]; [exists self0, (inl e); split; reflexivity|].
  set (T := list_to_set (token <$> notifications) : gset string).
  destruct (batch_loop_rule
              (fun b _ => tokens_left b ∪ dom (results b) = T
                          ∧ (next_notification b = None → notification_iterator b = []))
              (fun _ _ => True) topic priority expiration)
    with (fuel := (2 * length notifications + 1 + k)%nat)
         (b := batch_start notifications) (self := self0)
    as (self' & r & Hrun & Hr).
  - intros b self1 [HT Hnone] _. simpl.
    destruct (batch_iteration_effect topic priority expiration b self1)
      as (evs & _ & _ & _ & Hcase).
    destruct (snd (batch_iteration topic priority expiration b self1)) as [e|b']; [exact I|].
    destruct Hcase as [(n & l & Hn & _ & _ & Hr) | [(ps & rest & Ho & _ & _ & Hr) | (e & _ & Hr & _)]].
    + destruct Hr as [(sid & ? & ? & ? & _ & [= ->]) | (e & [=] & _)].
      destruct (tokens_left_after_submit b n sid Hn Hnone) as [-> Hnone']. split; assumption.
    + destruct Hr as [(result & [= ->]) | (e & [=] & _)].
      rewrite (tokens_left_after_drain b ps rest result Ho). split; assumption.
    + discriminate.
  - rewrite tokens_left_batch_start. split.
    + unfold batch_start. destruct (advance notifications). simpl. rewrite dom_empty_L.
      subst T. set_solver.
    + destruct notifications; simpl; [reflexivity | discriminate].
  - rewrite pending_batch_start. lia.
  - rewrite Hrun. destruct r as [e|b'].
    + exists self', (inl e). split; reflexivity.
    + exists self', (inr (results b')). split; [reflexivity|].
      destruct Hr as [[HT Hnone] Ht]. apply loop_test_false in Ht as [Hn Ho].
      assert (dom (results b') = T) as Hd.
      { rewrite <- HT. unfold tokens_left. rewrite Hn, Ho, (Hnone Hn). simpl. set_solver. }
      split; [exact Hd|].
      rewrite <- list_to_set_size_remove_dups. fold T. rewrite <- Hd. apply eq_sym, size_dom.
Qed.

(** ** Order of the drains *)

Lemma fifo_step_none (t : list event) : fold_left fifo_step t None = None.
Proof. induction t as [|ev t IH]; [reflexivity | exact IH]. Qed.

Lemma fifo_monitor_app (q : list Z) (t1 t2 : list event) :
  fifo_monitor q (t1 ++ t2) = fold_left fifo_step t2 (fifo_monitor q t1).
Proof. unfold fifo_monitor. apply fold_left_app. Qed.

Lemma submitted_app (t1 t2 : list event) : submitted (t1 ++ t2) = submitted t1 ++ submitted t2.
Proof. unfold submitted. rewrite map_app, concat_app. reflexivity. Qed.

Lemma drained_app (t1 t2 : list event) : drained (t1 ++ t2) = drained t1 ++ drained t2.
Proof. unfold drained. rewrite map_app, concat_app. reflexivity. Qed.

Lemma settings_app (t1 t2 : list event) : settings (t1 ++ t2) = settings t1 ++ settings t2.
Proof. unfold settings. rewrite map_app, concat_app. reflexivity. Qed.

(** What the monitor accepts: the queue, then what was submitted, is what was
    drained, then the queue left. *)
Lemma fifo_monitor_sound (t : list event) : ∀ q q',
  fifo_monitor q t = Some q' → q ++ submitted t = drained t ++ q'.
Proof.
  induction t as [|ev t IH]; intros q q' Hm.
  - injection Hm as <-. unfold submitted, drained. simpl. apply app_nil_r.
  - unfold fifo_monitor in Hm. simpl in Hm.
    change (ev :: t) with ([ev] ++ t). rewrite submitted_app, drained_app.
    destruct ev as [ok|raw|method url body headers [what|sid]|sid|sid];
      try (apply IH in Hm; unfold submitted, drained in *; simpl in *; exact Hm).
    + apply IH in Hm. unfold submitted, drained in *. simpl in *.
      rewrite <- Hm, <- app_assoc. reflexivity.
    + destruct q as [|oldest q]; [rewrite fifo_step_none in Hm; discriminate|].
      destruct (sid =? oldest) eqn:E; [|rewrite fifo_step_none in Hm; discriminate].
      apply Z.eqb_eq in E. subst oldest. apply IH in Hm.
      unfold submitted, drained in *. simpl in *. rewrite Hm. reflexivity.
Qed.

(** Each [get_response] the monitor accepts is for the oldest stream submitted
    and not yet drained at that point of the log. *)
Lemma fifo_monitor_head (t1 t2 : list event) (sid : Z) :
  is_Some (fifo_monitor [] (t1 ++ EvGetResponse sid :: t2)) →
  ∃ rest, submitted t1 = drained t1 ++ sid :: rest.
Proof.
  intros [q Hm]. rewrite fifo_monitor_app in Hm.
  destruct (fifo_monitor [] t1) as [q1|] eqn:E1; [|rewrite fifo_step_none in Hm; discriminate].
  apply fifo_monitor_sound in E1. simpl in E1, Hm.
  destruct q1 as [|oldest q1]; [rewrite fifo_step_none in Hm; discriminate|].
  destruct (sid =? oldest) eqn:E; [|rewrite fifo_step_none in Hm; discriminate].
  apply Z.eqb_eq in E. subst oldest. exists q1. exact E1.
Qed.

Lemma fifo_monitor_connects (q : list Z) (attempts : list bool) :
  fifo_monitor q (EvConnect <$> attempts) = Some q.
Proof. induction attempts as [|ok l IH]; [reflexivity | exact IH]. Qed.

(** C3: the [get_response] calls of a batch are made in the order in which
    [request] handed the streams out, whatever the connection answers: each
    call is for the oldest stream submitted and not yet drained, the drained
    streams are always a prefix of the submitted ones, and on a normal return
    they are all of them. *)
Theorem drains_follow_submission_order self
    (notifications : list (Notification Payload)) topic priority expiration (k : nat) :
  ∃ self' r evs,
    send_notification_batch (2 * length notifications + 1 + k) notifications topic priority
      expiration self = Some (self', r)
    ∧ trace self' = trace self ++ evs
    ∧ (∀ evs1 sid evs2, evs = evs1 ++ EvGetResponse sid :: evs2 →
         ∃ rest, submitted evs1 = drained evs1 ++ sid :: rest)
    ∧ (∃ outstanding, submitted evs = drained evs ++ outstanding
                      ∧ ∀ result_map, r = inr result_map → outstanding = []).
Proof.
  assert (Hfinish : ∀ evs q (P : Prop), fifo_monitor [] evs = Some q → (P → q = []) →
            (∀ evs1 sid evs2, evs = evs1 ++ EvGetResponse sid :: evs2 →
               ∃ rest, submitted evs1 = drained evs1 ++ sid :: rest)
            ∧ (∃ outstanding, submitted evs = drained evs ++ outstanding
                              ∧ (P → outstanding = []))).
  { intros evs q P Hm Hq. split.
    - intros evs1 sid evs2 ->. apply (fifo_monitor_head evs1 evs2). rewrite Hm. eauto.
    - exists q. split; [|exact Hq]. apply fifo_monitor_sound in Hm. exact Hm. }
  unfold send_notification_batch.
  destruct (connect_loop_run 0 self) as (att & Ht & _); [unfold MAX_CONNECTION_RETRIES; lia|].
  fold (connect self) in Ht.
  destruct (connect self) as [self0 [e|?]]; simpl in Ht.
  { exists self0, (inl e), (EvConnect <$> att). split; [reflexivity|]. split; [exact Ht|].
    destruct (Hfinish (EvConnect <$> att) [] False (fifo_monitor_connects [] att))
      as [Hh (o & Ho & _)]; [tauto|].
    split; [exact Hh|]. exists o. split; [exact Ho | discriminate]. }
  destruct (batch_loop_rule
              (fun b self1 => ∃ evs, trace self1 = trace self ++ evs
                 ∧ fifo_monitor [] evs = Some (stream_id <$> open_streams b))
              (fun self1 _ => ∃ evs, trace self1 = trace self ++ evs
                 ∧ is_Some (fifo_monitor [] evs)) topic priority expiration)
    with (fuel := (2 * length notifications + 1 + k)%nat)
         (b := batch_start notifications) (self := self0)
    as (self' & r & Hrun & Hr).
  - intros b self1 (evs & Htr & Hm) _. simpl.
    destruct (batch_iteration_effect topic priority expiration b self1)
      as (evs' & Htr' & _ & _ & Hcase). simpl in Htr'.
    rewrite Htr, <- app_assoc in Htr'.
    assert (Hm' : fifo_monitor [] (evs ++ EvSettings
                    (snd (conn_remote_max_concurrent_streams (connection self1))) :: evs')
                  = fold_left fifo_step evs' (Some (stream_id <$> open_streams b))).
    { rewrite fifo_monitor_app, Hm. reflexivity. }
    destruct Hcase as [(n & l & _ & _ & _ & Hr) | [(ps & rest & Ho & _ & Hev & Hr) | (e & -> & -> & _)]].
    + destruct Hr as [(sid & ? & ? & ? & -> & ->) | (e & -> & _ & Hev)].
      * eexists. split; [exact Htr'|]. rewrite Hm'. simpl. rewrite fmap_app. reflexivity.
      * eexists. split; [exact Htr'|]. rewrite Hm'.
        destruct Hev as [-> | (? & ? & ? & ? & ->)]; simpl; eauto.
    + assert (fold_left fifo_step evs' (Some (stream_id <$> open_streams b))
              = Some (stream_id <$> rest)) as Hm''.
      { rewrite Ho. destruct Hev as [-> | ->]; simpl; rewrite Z.eqb_refl; reflexivity. }
      rewrite Hm'' in Hm'.
      destruct Hr as [(result & ->) | (e & -> & _)]; eexists; (split; [exact Htr'|]).
      * exact Hm'.
      * rewrite Hm'. eauto.
    + eexists. split; [exact Htr'|]. rewrite Hm'. simpl. eauto.
  - exists (EvConnect <$> att). split; [exact Ht|]. rewrite fifo_monitor_connects.
    unfold batch_start. destruct (advance notifications). reflexivity.
  - rewrite pending_batch_start. lia.
  - rewrite Hrun. destruct r as [e|b'].
    + destruct Hr as (evs & Htr & [q Hm]).
      exists self', (inl e), evs. split; [reflexivity|]. split; [exact Htr|].
      destruct (Hfinish evs q False Hm) as [Hh (o & Ho & _)]; [tauto|].
      split; [exact Hh|]. exists o. split; [exact Ho | discriminate].
    + destruct Hr as [(evs & Htr & Hm) Hloop].
      exists self', (inr (results b')), evs. split; [reflexivity|]. split; [exact Htr|].
      apply loop_test_false in Hloop as [_ Hopen]. rewrite Hopen in Hm. simpl in Hm.
      destruct (Hfinish evs [] True Hm) as [Hh (o & Ho & Hq)]; [reflexivity|].
      split; [exact Hh|]. exists o. split; [exact Ho|]. intros _ _. apply Hq. exact I.
Qed.

(** ** The admission bound *)

Lemma peak_limit_range (raws : list Z) :
  0 ≤ peak_limit raws ≤ CONCURRENT_STREAMS_SAFETY_MAXIMUM.
Proof.
  induction raws as [|raw raws IH]; simpl.
  - unfold CONCURRENT_STREAMS_SAFETY_MAXIMUM. lia.
  - pose proof (clamp_range raw). lia.
Qed.

Lemma peak_limit_app (l1 l2 : list Z) :
  peak_limit (l1 ++ l2) = Z.max (peak_limit l1) (peak_limit l2).
Proof.
  induction l1 as [|raw l1 IH]; simpl.
  - pose proof (peak_limit_range l2). lia.
  - rewrite IH. lia.
Qed.

(** C2, as the code has it: in every state the loop reaches, the number of
    open streams is at most the largest effective limit in force at any
    iteration so far, hence at most 1000; and when the next iteration submits a
    stream, the number of open streams after the admission is at most the
    effective limit of that iteration. *)
Theorem open_streams_bounded_by_peak_limit self
    (notifications : list (Notification Payload)) topic priority expiration (n : nat)
    (self' : APNsClient W) (b' : batch_state Payload) :
  client_inv self →
  iterate n topic priority expiration (batch_start notifications) self = (self', inr b') →
  (∃ evs, trace self' = trace self ++ evs
          ∧ Z.of_nat (length (open_streams b')) ≤ peak_limit (settings evs)
          ∧ peak_limit (settings evs) ≤ 1000)
  ∧ (∀ b'', snd (batch_iteration topic priority expiration b' self') = inr b'' →
       (length (open_streams b') < length (open_streams b''))%nat →
       ∃ l, max_concurrent_streams (fst (batch_iteration topic priority expiration b' self'))
            = Some l
            ∧ Z.of_nat (length (open_streams b'')) ≤ l).
Proof.
  intros Hinv Hrun. split.
  - pose proof (iterate_rule
      (fun b self1 => client_inv self1
         ∧ ∃ evs, trace self1 = trace self ++ evs
                  ∧ Z.of_nat (length (open_streams b)) ≤ peak_limit (settings evs))
      topic priority expiration) as Hrule.
    destruct (Hrule) with (n := n) (b := batch_start notifications) (self := self)
      (self' := self') (b' := b') as [_ (evs & Htr & Hb)].
    + clear. intros b self1 [Hinv (evs & Htr & Hb)] _. simpl.
      destruct (batch_iteration_inv topic priority expiration b self1 Hinv) as [Hinv' Hl].
      destruct (batch_iteration_effect topic priority expiration b self1)
        as (evs' & Htr' & _ & _ & Hcase). simpl in Htr', Hl.
      set (raw := snd (conn_remote_max_concurrent_streams (connection self1))) in *.
      destruct (snd (batch_iteration topic priority expiration b self1)) as [e|b1] eqn:Eo;
        [exact I|].
      split; [exact Hinv'|]. exists (evs ++ EvSettings raw :: evs').
      split; [rewrite Htr', Htr, <- app_assoc; reflexivity|].
      rewrite settings_app, peak_limit_app.
      change (EvSettings raw :: evs') with ([EvSettings raw] ++ evs').
      rewrite settings_app, peak_limit_app. simpl.
      pose proof (peak_limit_range (settings evs')).
      destruct Hcase as [(nt & l & _ & Hl' & Hlt & Hr) | [(ps & rest & Ho & _ & _ & Hr) | (e & _ & [=] & _)]].
      * destruct Hr as [(sid & ? & ? & ? & _ & [= ->]) | (e & [=] & _)].
        rewrite Hl in Hl'. injection Hl' as <-. simpl. rewrite length_app. simpl. lia.
      * destruct Hr as [(result & [= ->]) | (e & [=] & _)].
        simpl. rewrite Ho in Hb. simpl in Hb. lia.
    + split; [exact Hinv|]. exists []. split; [rewrite app_nil_r; reflexivity|].
      unfold batch_start. destruct (advance notifications). simpl. lia.
    + exact Hrun.
    + exists evs. split; [exact Htr|]. split; [exact Hb|].
      apply (peak_limit_range (settings evs)).
  - intros b'' Hout Hgrow.
    destruct (batch_iteration_effect topic priority expiration b' self')
      as (evs' & _ & _ & _ & Hcase).
    rewrite Hout in Hcase.
    destruct Hcase as [(nt & l & _ & Hl' & Hlt & Hr) | [(ps & rest & Ho & _ & _ & Hr) | (e & _ & [=] & _)]].
    + destruct Hr as [(sid & ? & ? & ? & _ & [= ->]) | (e & [=] & _)].
      exists l. split; [exact Hl'|]. simpl. rewrite length_app. simpl. lia.
    + destruct Hr as [(result & [= ->]) | (e & [=] & _)].
      simpl in Hgrow. rewrite Ho in Hgrow. simpl in Hgrow. lia.
Qed.

End Properties.

(** * Further properties of the batch and of the single calls *)

Section BatchLog.

Context {W : Type} `{HTTP20Connection W}.
Context {Payload : Type} `{JsonCodec Payload}.

Implicit Types (self : APNsClient W) (b : batch_state Payload).

Lemma reason_of_body_raised bytes e :
  reason_of_body bytes = inl e → raised_by_drain e = true.
Proof.
  unfold reason_of_body, py_getitem.
  destruct (utf8_decode bytes) as [text|]; [|intros [= <-]; reflexivity].
  destruct (json_loads text) as [data|]; [|intros [= <-]; reflexivity].
  destruct data; try (intros [= <-]; reflexivity).
  destruct (dict_get items "reason"); [discriminate | intros [= <-]; reflexivity].
Qed.

(** One iteration, with everything it logs: the settings read, then either the
    one request for the next notification, or the [get_response] on the head
    of the queue and the read of a rejection's body, or nothing. *)
Lemma batch_iteration_log topic priority expiration b self :
  let out := batch_iteration topic priority expiration b self in
  let raw := snd (conn_remote_max_concurrent_streams (connection self)) in
  (∃ n l, next_notification b = Some n
          ∧ max_concurrent_streams (fst out) = Some l
          ∧ Z.of_nat (length (open_streams b)) < l
          ∧ match json_dumps_utf8 (payload n) with
            | None => trace (fst out) = trace self ++ [EvSettings raw]
                      ∧ snd out = inl SerializeError
            | Some body =>
                ∃ r, trace (fst out)
                     = trace self ++ [EvSettings raw;
                                      EvRequest "POST" ("/3/device/" ++ token n) body
                                        (request_headers topic priority expiration) r]
                     ∧ snd out = match r with
                                 | inr sid => inr (after_submit b n sid)
                                 | inl what => inl (TransportError what)
                                 end
            end)
  ∨ (∃ pending_stream rest,
        open_streams b = pending_stream :: rest
        ∧ (next_notification b = None
           ∨ ∃ l, max_concurrent_streams (fst out) = Some l
                  ∧ l ≤ Z.of_nat (length (open_streams b)))
        ∧ ∃ tail,
            trace (fst out)
            = trace self ++ EvSettings raw :: EvGetResponse (stream_id pending_stream) :: tail
            ∧ (tail = [] ∨ tail = [EvRead (stream_id pending_stream)])
            ∧ ((∃ result, snd out = inr (after_drain b pending_stream rest result)
                          ∧ result_value result)
               ∨ (∃ e, snd out = inl e ∧ raised_by_drain e = true)))
  ∨ (∃ e, trace (fst out) = trace self ++ [EvSettings raw]
          ∧ snd out = inl e ∧ scheduler_fault e = true
          ∧ ((∃ n, next_notification b = Some n)
             ∧ max_concurrent_streams (fst out) = None
             ∨ open_streams b = []
               ∧ (next_notification b = None
                  ∨ ∃ l, max_concurrent_streams (fst out) = Some l ∧ l ≤ 0))).
Proof.
  intros out raw. subst out raw.
  pose proof (batch_iteration_cases topic priority expiration b self) as Hc.
  pose proof (update_max_concurrent_streams_run self) as Hup.
  simpl in Hc, Hup. rewrite Hup in Hc. simpl in Hc.
  set (self1 := {| connection := _ |}) in Hc. clear Hup.
  destruct Hc as [(n & l & Hn & Hl & Hlt & Hout) | [(ps & rest & Ho & Hwhy & Hout) | (e & Hout & He & Hwhy)]].
  - left. exists n, l. rewrite send_notification_async_run in Hout.
    destruct (json_dumps_utf8 (payload n)) as [body|].
    + simpl in Hout.
      destruct (conn_request _ _ _ _ _) as [w [what|sid]] eqn:Er; simpl in Hout;
        rewrite Hout; simpl; (split; [exact Hn|]); (split; [exact Hl|]);
        (split; [exact Hlt|]); eexists; (split; [rewrite <- app_assoc; reflexivity|]);
        reflexivity.
    + rewrite Hout. simpl. repeat split; assumption.
  - right. left. exists ps, rest. rewrite get_notification_result_run in Hout. simpl in Hout.
    destruct (conn_get_response _ _) as [w [what|response]]; simpl in Hout.
    + rewrite Hout. simpl. split; [exact Ho|]. split; [exact Hwhy|]. exists [].
      split; [rewrite <- app_assoc; reflexivity|]. split; [left; reflexivity|].
      right. eexists. split; reflexivity.
    + destruct (status response =? 200).
      * rewrite Hout. simpl. split; [exact Ho|]. split; [exact Hwhy|]. exists [].
        split; [rewrite <- app_assoc; reflexivity|]. split; [left; reflexivity|].
        left. eexists. split; [reflexivity|]. left. reflexivity.
      * destruct (conn_read response w) as [w' [what|bytes]]; simpl in Hout.
        -- rewrite Hout. simpl. split; [exact Ho|]. split; [exact Hwhy|]. eexists.
           split; [rewrite <- app_assoc; reflexivity|]. split; [right; reflexivity|].
           right. eexists. split; reflexivity.
        -- destruct (reason_of_body bytes) as [e|result] eqn:Eb;
             rewrite Hout; simpl; (split; [exact Ho|]); (split; [exact Hwhy|]); eexists;
             (split; [rewrite <- app_assoc; reflexivity|]); (split; [right; reflexivity|]).
           ++ right. exists e. split; [reflexivity|]. eapply reason_of_body_raised, Eb.
           ++ left. exists result. split; [reflexivity|]. right. exists bytes. exact Eb.
  - right. right. exists e. rewrite Hout. simpl.
    split; [reflexivity|]. split; [reflexivity|]. split; [exact He | exact Hwhy].
Qed.

Lemma raised_by_drain_in_loop (e : exn) : raised_by_drain e = true → raised_in_loop e = true.
Proof. destruct e as [| | | | | |[]| | |]; simpl; intros; congruence. Qed.

Lemma scheduler_fault_in_loop (e : exn) : scheduler_fault e = true → raised_in_loop e = true.
Proof. destruct e as [| | | | | |[]| | |]; simpl; intros; congruence. Qed.

Lemma upcoming_after_submit b n sid :
  upcoming (after_submit b n sid) = notification_iterator b.
Proof. unfold upcoming, after_submit. simpl. destruct (notification_iterator b); reflexivity. Qed.

Ltac log_app :=
  unfold connects, settings, requests, request_failures in *;
  rewrite ?map_app, ?concat_app, ?length_app in *; simpl in *;
  rewrite ?app_nil_r in *.

(** The shape of the log goes through an iteration, or turns into the shape
    of a failed run. *)
Lemma loop_log_step topic priority expiration (notifications : list (Notification Payload))
    (t0 evs : list event) b self :
  trace self = t0 ++ evs →
  loop_log_ok topic priority expiration notifications b evs →
  loop_test b = true →
  let out := batch_iteration topic priority expiration b self in
  ∃ evs', trace (fst out) = t0 ++ evs'
          ∧ match snd out with
            | inr b' => loop_log_ok topic priority expiration notifications b' evs'
            | inl e => loop_log_failed topic priority expiration notifications e evs'
            end.
Proof.
  intros Htr (Hconn & Hnone & (sent & Hsent & Hall) & Hcount & Hfail & Hres) Htest out.
  subst out. apply loop_test_pending in Htest.
  destruct (batch_iteration_log topic priority expiration b self)
    as [(n & l & Hn & _ & _ & Hout) | [(ps & rest & Ho & _ & tail & Htr' & Htail & Hout) | (e & Htr' & Hout & He & _)]].
  - assert (Hup : upcoming b = n :: notification_iterator b) by (unfold upcoming; rewrite Hn; reflexivity).
    destruct (json_dumps_utf8 (payload n)) as [body|] eqn:Ed.
    + destruct Hout as (r & Htr' & Hout). rewrite Htr' , Htr, <- app_assoc. eexists.
      split; [reflexivity|]. rewrite Hout.
      assert (Hsent' : Forall2 (request_of topic priority expiration) (sent ++ [n])
                (requests evs ++ [("POST"%string, ("/3/device/" ++ token n)%string, body,
                                   request_headers topic priority expiration)])).
      { apply Forall2_app; [exact Hsent|]. constructor; [|constructor].
        exists body. split; [exact Ed | reflexivity]. }
      destruct r as [what|sid].
      * unfold loop_log_failed. log_app. split; [exact Hconn|].
        split. { exists (sent ++ [n]), (notification_iterator b). split; [exact Hsent'|].
                 rewrite <- app_assoc. simpl. rewrite <- Hup. exact Hall. }
        split; [lia|]. split; [reflexivity|]. right.
        exists (evs ++ [EvSettings (snd (conn_remote_max_concurrent_streams (connection self)))]).
        do 5 eexists. split; [rewrite <- app_assoc; reflexivity|].
        split; [|reflexivity]. rewrite map_app, concat_app. simpl. rewrite app_nil_r. exact Hfail.
      * pose proof (pending_after_submit b n sid Hn) as Hp.
        unfold loop_log_ok. rewrite upcoming_after_submit. log_app.
        split; [exact Hconn|]. split.
        { destruct (notification_iterator b); simpl; [reflexivity | discriminate]. }
        split. { exists (sent ++ [n]). split; [exact Hsent'|].
                 rewrite <- app_assoc. simpl. rewrite <- Hup. exact Hall. }
        split; [lia|]. split; [exact Hfail | exact Hres].
    + destruct Hout as [Htr' Hout]. rewrite Htr', Htr, <- app_assoc. eexists.
      split; [reflexivity|]. rewrite Hout. unfold loop_log_failed. log_app.
      split; [exact Hconn|]. split; [exists sent, (upcoming b); split; assumption|].
      split; [lia|]. split; [reflexivity|]. left. exact Hfail.
  - rewrite Htr', Htr, <- app_assoc. eexists. split; [reflexivity|].
    assert (Hlen : length (settings (EvSettings (snd (conn_remote_max_concurrent_streams
                     (connection self))) :: EvGetResponse (stream_id ps) :: tail)) = 1%nat)
      by (destruct Htail as [-> | ->]; reflexivity).
    assert (Hquiet : connects (EvSettings (snd (conn_remote_max_concurrent_streams
                       (connection self))) :: EvGetResponse (stream_id ps) :: tail) = []
                     ∧ requests (EvSettings (snd (conn_remote_max_concurrent_streams
                       (connection self))) :: EvGetResponse (stream_id ps) :: tail) = []
                     ∧ request_failures (EvSettings (snd (conn_remote_max_concurrent_streams
                       (connection self))) :: EvGetResponse (stream_id ps) :: tail) = [])
      by (destruct Htail as [-> | ->]; repeat split; reflexivity).
    destruct Hquiet as (Hq1 & Hq2 & Hq3).
    destruct Hout as [(result & Hout & Hval) | (e & Hout & He)]; rewrite Hout.
    + pose proof (pending_after_drain b ps rest result Ho) as Hp.
      unfold loop_log_ok. unfold connects, settings, requests, request_failures in *.
      rewrite !map_app, !concat_app, ?length_app, Hq1, Hq2, Hq3, Hlen, ?app_nil_r.
      split; [exact Hconn|]. split; [exact Hnone|].
      split; [exists sent; split; assumption|]. split; [lia|]. split; [exact Hfail|].
      simpl. apply map_Forall_insert_2; assumption.
    + unfold loop_log_failed. unfold connects, settings, requests, request_failures in *.
      rewrite !map_app, !concat_app, ?length_app, Hq1, Hq2, Hq3, Hlen, ?app_nil_r.
      split; [exact Hconn|]. split; [exists sent, (upcoming b); split; assumption|].
      split; [lia|]. split; [apply raised_by_drain_in_loop, He|]. left. exact Hfail.
  - rewrite Htr', Htr, <- app_assoc. eexists. split; [reflexivity|]. rewrite Hout.
    unfold loop_log_failed. log_app.
    split; [exact Hconn|]. split; [exists sent, (upcoming b); split; assumption|].
    split; [lia|]. split; [apply scheduler_fault_in_loop, He|]. left. exact Hfail.
Qed.

Lemma loop_log_start topic priority expiration (notifications : list (Notification Payload)) :
  loop_log_ok topic priority expiration notifications (batch_start notifications) [].
Proof.
  unfold loop_log_ok. split; [reflexivity|]. split.
  { destruct notifications; simpl; [reflexivity | discriminate]. }
  split. { exists []. split; [constructor|]. destruct notifications; reflexivity. }
  split; [rewrite pending_batch_start; simpl; lia|]. split; [reflexivity|].
  unfold batch_start. destruct (advance notifications). simpl. apply map_Forall_empty.
Qed.

(** At the exit of the loop nothing is left: every notification was sent. *)
Lemma loop_log_exit topic priority expiration (notifications : list (Notification Payload))
    b (evs : list event) :
  loop_log_ok topic priority expiration notifications b evs →
  loop_test b = false →
  Forall2 (request_of topic priority expiration) notifications (requests evs)
  ∧ length (settings evs) = (2 * length notifications)%nat.
Proof.
  intros (_ & Hnone & (sent & Hsent & Hall) & Hcount & _) Ht.
  apply loop_test_false in Ht as [Hn Ho]. specialize (Hnone Hn).
  unfold upcoming in Hall. unfold pending in Hcount.
  rewrite Hn, Hnone in Hall. rewrite Hn, Hnone, Ho in Hcount. simpl in Hcount.
  rewrite app_nil_r in Hall. subst sent. split; [exact Hsent | lia].
Qed.

(** The three outcomes of a batch and the log of each: the connection could
    not be made and nothing else was called; an iteration failed; or the loop
    ran to its end. *)
Lemma send_notification_batch_outcomes self (notifications : list (Notification Payload))
    topic priority expiration (k : nat) :
  ∃ self' r attempts evs,
    send_notification_batch (2 * length notifications + 1 + k) notifications topic priority
      expiration self = Some (self', r)
    ∧ trace self' = trace self ++ (EvConnect <$> attempts) ++ evs
    ∧ ((r = inl ConnectionFailed ∧ attempts = [false; false; false] ∧ evs = [])
       ∨ ((∃ j, attempts = repeat false j ++ [true])
          ∧ match r with
            | inl e => loop_log_failed topic priority expiration notifications e evs
            | inr result_map =>
                ∃ b', result_map = results b' ∧ loop_test b' = false
                      ∧ loop_log_ok topic priority expiration notifications b' evs
            end)).
Proof.
  unfold send_notification_batch.
  destruct (connect_loop_run 0 self) as (att & Ht & _ & _ & _ & Hr);
    [unfold MAX_CONNECTION_RETRIES; lia|].
  fold (connect self) in Ht, Hr.
  destruct (connect self) as [self0 [e|?]]; simpl in Ht, Hr.
  { destruct Hr as [[[=] _] | [[= ->] ->]].
    exists self0, (inl ConnectionFailed), [false; false; false], [].
    split; [reflexivity|]. split; [rewrite app_nil_r; exact Ht|]. left. repeat split. }
  destruct Hr as [[_ Hj] | [[=] _]].
  destruct (batch_loop_rule
              (fun b self1 => ∃ evs, trace self1 = (trace self ++ (EvConnect <$> att)) ++ evs
                 ∧ loop_log_ok topic priority expiration notifications b evs)
              (fun self1 e => ∃ evs, trace self1 = (trace self ++ (EvConnect <$> att)) ++ evs
                 ∧ loop_log_failed topic priority expiration notifications e evs)
              topic priority expiration)
    with (fuel := (2 * length notifications + 1 + k)%nat)
         (b := batch_start notifications) (self := self0)
    as (self' & r & Hrun & Hout).
  - intros b self1 (evs & Htr & Hok) Htest. simpl.
    destruct (loop_log_step topic priority expiration notifications _ evs b self1 Htr Hok Htest)
      as (evs' & Htr' & Hshape).
    destruct (snd (batch_iteration topic priority expiration b self1)); eauto.
  - exists []. split; [rewrite app_nil_r; exact Ht | apply loop_log_start].
  - rewrite pending_batch_start. lia.
  - rewrite Hrun. destruct r as [e|b'].
    + destruct Hout as (evs & Htr & Hshape). exists self', (inl e), att, evs.
      split; [reflexivity|]. split; [rewrite Htr, <- app_assoc; reflexivity|].
      right. split; assumption.
    + destruct Hout as [(evs & Htr & Hshape) Htest].
      exists self', (inr (results b')), att, evs.
      split; [reflexivity|]. split; [rewrite Htr, <- app_assoc; reflexivity|].
      right. split; [exact Hj|]. exists b'. split; [reflexivity|]. split; [exact Htest | exact Hshape].
Qed.

Lemma requests_connects (attempts : list bool) : requests (EvConnect <$> attempts) = [].
Proof. induction attempts as [|ok l IH]; [reflexivity | exact IH]. Qed.

Lemma settings_connects (attempts : list bool) : settings (EvConnect <$> attempts) = [].
Proof. induction attempts as [|ok l IH]; [reflexivity | exact IH]. Qed.

Lemma request_failures_connects (attempts : list bool) :
  request_failures (EvConnect <$> attempts) = [].
Proof. induction attempts as [|ok l IH]; [reflexivity | exact IH]. Qed.

Lemma requests_app (t1 t2 : list event) : requests (t1 ++ t2) = requests t1 ++ requests t2.
Proof. unfold requests. rewrite map_app, concat_app. reflexivity. Qed.

Lemma request_failures_app (t1 t2 : list event) :
  request_failures (t1 ++ t2) = request_failures t1 ++ request_failures t2.
Proof. unfold request_failures. rewrite map_app, concat_app. reflexivity. Qed.

(** ** The batch on an empty input, and what a batch can raise *)

(** X1: a batch of no notifications still connects; it then returns the empty
    map without any other call on the connection, or raises what [connect]
    raised. *)
Theorem send_notification_batch_empty self topic priority expiration (fuel : nat) :
  send_notification_batch fuel [] topic priority expiration self
  = Some (fst (connect self),
          match snd (connect self) with
          | inl e => inl e
          | inr _ => inr ∅
          end)
  ∧ ∃ attempts : list bool,
      trace (fst (connect self)) = trace self ++ (EvConnect <$> attempts)
      ∧ (1 ≤ length attempts ≤ 3)%nat.
Proof.
  split.
  - unfold send_notification_batch.
    destruct (connect self) as [self0 [e|?]]; [reflexivity|]. destruct fuel; reflexivity.
  - destruct (connect_loop_run 0 self) as (att & Ht & _ & _ & Hl & Hr);
      [unfold MAX_CONNECTION_RETRIES; lia|].
    exists att. split; [exact Ht|]. unfold MAX_CONNECTION_RETRIES in *. split; [|lia].
    destruct Hr as [[_ [j ->]] | [_ ->]]; [rewrite length_app|]; simpl; lia.
Qed.

(** X2: a batch never raises the per-notification rejection error (a
    rejection is an entry of the map), and when it raises [ConnectionFailed]
    the three failed connection attempts are all it did: no setting was read
    and no request sent. *)
Theorem send_notification_batch_raises self (notifications : list (Notification Payload))
    topic priority expiration (k : nat) :
  ∃ self' r evs,
    send_notification_batch (2 * length notifications + 1 + k) notifications topic priority
      expiration self = Some (self', r)
    ∧ trace self' = trace self ++ evs
    ∧ ∀ e, r = inl e →
        (∀ reason, e ≠ NotificationRejected reason)
        ∧ (e = ConnectionFailed ↔ evs = [EvConnect false; EvConnect false; EvConnect false]).
Proof.
  destruct (send_notification_batch_outcomes self notifications topic priority expiration k)
    as (self' & r & att & evs & Hrun & Htr & Hcase).
  exists self', r, ((EvConnect <$> att) ++ evs). split; [exact Hrun|]. split; [exact Htr|].
  intros e ->. destruct Hcase as [([= ->] & -> & ->) | ([j ->] & Hfailed)].
  - split; [discriminate|]. split; reflexivity.
  - destruct Hfailed as (_ & _ & Hset & Hin & _). split.
    + intros reason ->. discriminate.
    + split; [intros ->; discriminate|]. intros Hlog. exfalso.
      assert (Hs : settings ((EvConnect <$> repeat false j ++ [true]) ++ evs) = [])
        by (rewrite Hlog; reflexivity).
      rewrite settings_app, settings_connects in Hs. simpl in Hs. rewrite Hs in Hset.
      simpl in Hset. lia.
Qed.

(** ** Requests of a batch *)

(** X3: the requests of a batch are those of the input notifications in input
    order, one each: a POST to the path of the token with the serialized
    payload and the headers of the batch; on a normal return there is one for
    every notification, and on an error for a prefix of the input. *)
Theorem send_notification_batch_requests self (notifications : list (Notification Payload))
    topic priority expiration (k : nat) :
  ∃ self' r evs,
    send_notification_batch (2 * length notifications + 1 + k) notifications topic priority
      expiration self = Some (self', r)
    ∧ trace self' = trace self ++ evs
    ∧ ∃ sent rest,
        sent ++ rest = notifications
        ∧ Forall2 (fun n request =>
                     ∃ body, json_dumps_utf8 (payload n) = Some body
                             ∧ request = ("POST"%string, ("/3/device/" ++ token n)%string,
                                          body, request_headers topic priority expiration))
            sent (requests evs)
        ∧ (∀ result_map, r = inr result_map → rest = []).
Proof.
  destruct (send_notification_batch_outcomes self notifications topic priority expiration k)
    as (self' & r & att & evs & Hrun & Htr & Hcase).
  exists self', r, ((EvConnect <$> att) ++ evs). split; [exact Hrun|]. split; [exact Htr|].
  rewrite requests_app, requests_connects. simpl.
  destruct Hcase as [(-> & -> & ->) | (_ & Hshape)].
  - exists [], notifications. split; [reflexivity|]. split; [constructor | discriminate].
  - destruct r as [e|result_map].
    + destruct Hshape as (_ & (sent & rest & Hsent & Hall) & _).
      exists sent, rest. split; [exact Hall|]. split; [exact Hsent | discriminate].
    + destruct Hshape as (b' & _ & Htest & Hok).
      destruct (loop_log_exit _ _ _ _ _ _ Hok Htest) as [Hsent _].
      exists notifications, []. split; [apply app_nil_r|]. split; [exact Hsent | reflexivity].
Qed.

(** X4: the loop body runs at most twice per notification, and exactly twice
    per notification on a normal return: the peer's setting is read once per
    iteration, 2N times for N notifications. *)
Theorem send_notification_batch_iterations self (notifications : list (Notification Payload))
    topic priority expiration (k : nat) :
  ∃ self' r evs,
    send_notification_batch (2 * length notifications + 1 + k) notifications topic priority
      expiration self = Some (self', r)
    ∧ trace self' = trace self ++ evs
    ∧ (length (settings evs) ≤ 2 * length notifications)%nat
    ∧ (∀ result_map, r = inr result_map →
         length (settings evs) = (2 * length notifications)%nat).
Proof.
  destruct (send_notification_batch_outcomes self notifications topic priority expiration k)
    as (self' & r & att & evs & Hrun & Htr & Hcase).
  exists self', r, ((EvConnect <$> att) ++ evs). split; [exact Hrun|]. split; [exact Htr|].
  rewrite settings_app, settings_connects. simpl.
  destruct Hcase as [(-> & -> & ->) | (_ & Hshape)].
  - split; [simpl; lia | discriminate].
  - destruct r as [e|result_map].
    + destruct Hshape as (_ & _ & Hset & _). split; [lia | discriminate].
    + destruct Hshape as (b' & _ & Htest & Hok).
      destruct (loop_log_exit _ _ _ _ _ _ Hok Htest) as [_ Hlen].
      split; [lia|]. intros _ _. exact Hlen.
Qed.






(** X6: a request the connection raised on is the last call of the batch: it
    is not retried, no open stream is drained after it, and the batch raises
    the connection's error. *)
Theorem send_notification_batch_stops_at_failed_request self
    (notifications : list (Notification Payload)) topic priority expiration (k : nat) :
  ∃ self' r evs,
    send_notification_batch (2 * length notifications + 1 + k) notifications topic priority
      expiration self = Some (self', r)
    ∧ trace self' = trace self ++ evs
    ∧ ∀ evs1 method url body headers what evs2,
        evs = evs1 ++ EvRequest method url body headers (inl what) :: evs2 →
        evs2 = [] ∧ r = inl (TransportError what).
Proof.
  destruct (send_notification_batch_outcomes self notifications topic priority expiration k)
    as (self' & r & att & evs & Hrun & Htr & Hcase).
  exists self', r, ((EvConnect <$> att) ++ evs). split; [exact Hrun|]. split; [exact Htr|].
  intros evs1 method url body headers what evs2 Hsplit.
  assert (Hsome : request_failures ((EvConnect <$> att) ++ evs) ≠ []).
  { rewrite Hsplit, request_failures_app. simpl. intros Hnil.
    apply app_eq_nil in Hnil as [_ Hnil]. discriminate. }
  rewrite request_failures_app, request_failures_connects in Hsome. simpl in Hsome.
  destruct Hcase as [(_ & _ & ->) | (_ & Hshape)]; [contradiction|].
  destruct r as [e|result_map].
  - destruct Hshape as (_ & _ & _ & _ & [Hnil | (evs0 & m' & u' & b' & h' & what' & -> & Hnil & ->)]);
      [contradiction|].
    rewrite app_assoc in Hsplit.
    destruct evs2 as [|ev evs2 _] using rev_ind.
    + apply app_inj_tail in Hsplit as [_ [= _ _ _ _ ->]]. split; reflexivity.
    + exfalso. change (evs1 ++ EvRequest method url body headers (inl what) :: evs2 ++ [ev])
        with (evs1 ++ (EvRequest method url body headers (inl what) :: evs2) ++ [ev]) in Hsplit.
      rewrite app_assoc in Hsplit. apply app_inj_tail in Hsplit as [Hsplit _].
      assert (Hfail : request_failures ((EvConnect <$> att) ++ evs0) = []).
      { rewrite request_failures_app, request_failures_connects, Hnil. reflexivity. }
      rewrite Hsplit, request_failures_app in Hfail. simpl in Hfail.
      apply app_eq_nil in Hfail as [_ Hfail]. discriminate.
  - destruct Hshape as (b' & _ & _ & Hok).
    destruct Hok as (_ & _ & _ & _ & Hnil & _). contradiction.
Qed.

(** ** The limit during a batch *)

Lemma peak_limit_le_bound (raws : list Z) (c : Z) :
  0 ≤ c → (∀ raw, raw ∈ raws → clamp raw ≤ c) → peak_limit raws ≤ c.
Proof.
  intros Hc. induction raws as [|raw raws IH]; intros Hall; simpl; [exact Hc|].
  assert (clamp raw ≤ c) by (apply Hall; left).
  assert (peak_limit raws ≤ c) by (apply IH; intros x Hx; apply Hall; right; exact Hx).
  lia.
Qed.

(** In every state the loop reaches: the open streams are bounded by the
    largest limit so far, and the effective limit is the clamp of the raw value
    read last (before the first read, nothing is open). *)
Lemma iterate_limit_history self (notifications : list (Notification Payload))
    topic priority expiration (n : nat) (self' : APNsClient W) (b' : batch_state Payload) :
  client_inv self →
  iterate n topic priority expiration (batch_start notifications) self = (self', inr b') →
  client_inv self'
  ∧ ∃ evs, trace self' = trace self ++ evs
           ∧ Z.of_nat (length (open_streams b')) ≤ peak_limit (settings evs)
           ∧ match last (settings evs) with
             | Some raw => max_concurrent_streams self' = Some (clamp raw)
             | None => open_streams b' = []
             end.
Proof.
  intros Hinv Hrun.
  apply (iterate_rule
    (fun b self1 => client_inv self1
       ∧ ∃ evs, trace self1 = trace self ++ evs
                ∧ Z.of_nat (length (open_streams b)) ≤ peak_limit (settings evs)
                ∧ match last (settings evs) with
                  | Some raw => max_concurrent_streams self1 = Some (clamp raw)
                  | None => open_streams b = []
                  end)
    topic priority expiration) with (n := n) (b := batch_start notifications) (self := self);
    [| |exact Hrun].
  - clear. intros b self1 [Hinv (evs & Htr & Hb & _)] _. simpl.
    destruct (batch_iteration_inv topic priority expiration b self1 Hinv) as [Hinv' Hl].
    pose proof (batch_iteration_log topic priority expiration b self1) as Hcase.
    simpl in Hcase, Hl.
    set (raw := snd (conn_remote_max_concurrent_streams (connection self1))) in *.
    pose proof (clamp_range raw) as Hclamp.
    pose proof (peak_limit_range (settings evs)) as Hpeak.
    destruct (snd (batch_iteration topic priority expiration b self1)) as [e|b1] eqn:Eo;
      [exact I|].
    split; [exact Hinv'|].
    assert (Hnew : ∀ rest_log, settings rest_log = [] →
              trace (fst (batch_iteration topic priority expiration b self1))
              = trace self1 ++ EvSettings raw :: rest_log →
              Z.of_nat (length (open_streams b1)) ≤ Z.max (peak_limit (settings evs)) (clamp raw) →
              ∃ evs0, trace (fst (batch_iteration topic priority expiration b self1))
                      = trace self ++ evs0
                      ∧ Z.of_nat (length (open_streams b1)) ≤ peak_limit (settings evs0)
                      ∧ match last (settings evs0) with
                        | Some raw0 =>
                            max_concurrent_streams
                              (fst (batch_iteration topic priority expiration b self1))
                            = Some (clamp raw0)
                        | None => open_streams b1 = []
                        end).
    { intros rest_log Hrest Htr' Hle. exists (evs ++ EvSettings raw :: rest_log).
      split; [rewrite Htr', Htr, <- app_assoc; reflexivity|].
      change (EvSettings raw :: rest_log) with ([EvSettings raw] ++ rest_log).
      rewrite !settings_app, Hrest, app_nil_r.
      change (settings [EvSettings raw]) with [raw].
      rewrite peak_limit_app, last_snoc. simpl. split; [lia | exact Hl]. }
    destruct Hcase as [(nt & l & _ & Hl' & Hlt & Hout) | [(ps & rest & Ho & _ & tail & Htr' & Htail & Hout) | (e & _ & [=] & _)]].
    + rewrite Hl in Hl'. injection Hl' as <-.
      destruct (json_dumps_utf8 (payload nt)) as [body|]; [|destruct Hout as [_ [=]]].
      destruct Hout as ([what|sid] & Htr' & [= ->]).
      eapply Hnew; [|exact Htr'|]; [reflexivity|]. simpl. rewrite length_app. simpl. lia.
    + destruct Hout as [(result & [= ->] & _) | (e & [=] & _)].
      eapply Hnew; [|exact Htr'|].
      * destruct Htail as [-> | ->]; reflexivity.
      * simpl. rewrite Ho in Hb. simpl in Hb. lia.
  - split; [exact Hinv|]. exists []. split; [rewrite app_nil_r; reflexivity|].
    unfold batch_start. destruct (advance notifications). simpl. split; [lia | reflexivity].
Qed.

(** X7: as long as the peer never lowers the limit during a batch, the number
    of open streams is at most the current effective limit in every state the
    loop reaches. *)
Theorem open_streams_within_limit_unless_lowered self
    (notifications : list (Notification Payload)) topic priority expiration (n : nat)
    (self' : APNsClient W) (b' : batch_state Payload) (evs : list event) :
  client_inv self →
  iterate n topic priority expiration (batch_start notifications) self = (self', inr b') →
  trace self' = trace self ++ evs →
  (∀ i j x y, (i ≤ j)%nat → settings evs !! i = Some x → settings evs !! j = Some y →
     clamp x ≤ clamp y) →
  match max_concurrent_streams self' with
  | Some l => Z.of_nat (length (open_streams b')) ≤ l
  | None => open_streams b' = []
  end.
Proof.
  intros Hinv Hrun Htr Hmono.
  destruct (iterate_limit_history self notifications topic priority expiration n self' b'
              Hinv Hrun) as [Hinv' (evs0 & Htr0 & Hb & Hlast)].
  rewrite Htr in Htr0. apply app_inv_head in Htr0. subst evs0.
  destruct (last (settings evs)) as [raw|] eqn:El.
  - rewrite Hlast. etrans; [exact Hb|].
    pose proof (clamp_range raw). apply peak_limit_le_bound; [lia|].
    intros x Hx. apply list_elem_of_lookup in Hx as [i Hi].
    rewrite last_lookup in El. apply (Hmono i (pred (length (settings evs))) x raw); try assumption.
    apply lookup_lt_Some in Hi. lia.
  - rewrite Hlast. unfold client_inv in Hinv'. rewrite Hinv'.
    destruct (previous_server_max_concurrent_streams self') as [p|]; simpl; [|reflexivity].
    pose proof (clamp_range p). lia.
Qed.

(** X8: the policy of one iteration, in the calls it makes.  It reads the
    setting once; when a notification is waiting and the number of open streams
    is below the refreshed limit it requests and awaits nothing; when no
    notification is waiting or the limit is reached it requests nothing and
    awaits the oldest open stream. *)
Theorem batch_iteration_policy topic priority expiration b self :
  let out := batch_iteration topic priority expiration b self in
  ∃ evs,
    trace (fst out) = trace self ++ evs
    ∧ length (settings evs) = 1%nat
    ∧ (∀ n l, next_notification b = Some n →
         max_concurrent_streams (fst out) = Some l →
         Z.of_nat (length (open_streams b)) < l →
         drained evs = []
         ∧ (is_Some (json_dumps_utf8 (payload n)) → length (requests evs) = 1%nat))
    ∧ (next_notification b = None
       ∨ (∃ l, max_concurrent_streams (fst out) = Some l
               ∧ l ≤ Z.of_nat (length (open_streams b))) →
       requests evs = [] ∧ drained evs = stream_id <$> take 1 (open_streams b)).
Proof.
  intros out. subst out.
  destruct (batch_iteration_log topic priority expiration b self)
    as [(n & l & Hn & Hl & Hlt & Hout) | [(ps & rest & Ho & Hwhy & tail & Htr & Htail & _) | (e & Htr & _ & _ & Hwhy)]].
  - destruct (json_dumps_utf8 (payload n)) as [body|] eqn:Ed.
    + destruct Hout as (r & Htr & _). eexists. split; [exact Htr|]. split; [reflexivity|].
      split.
      * intros n' l' _ _ _. split; reflexivity.
      * intros [Hnone | (l' & Hl' & Hle)]; [congruence|]. rewrite Hl in Hl'.
        injection Hl' as <-. lia.
    + destruct Hout as [Htr _]. eexists. split; [exact Htr|]. split; [reflexivity|]. split.
      * intros n' l' Hn' _ _. split; [reflexivity|]. intros [body Hbody].
        rewrite Hn in Hn'. injection Hn' as <-. congruence.
      * intros [Hnone | (l' & Hl' & Hle)]; [congruence|]. rewrite Hl in Hl'.
        injection Hl' as <-. lia.
  - eexists. split; [exact Htr|].
    split; [destruct Htail as [-> | ->]; reflexivity|]. split.
    + intros n l Hn Hl Hlt. exfalso.
      destruct Hwhy as [Hnone | (l' & Hl' & Hle)]; [congruence|].
      rewrite Hl in Hl'. injection Hl' as <-. lia.
    + intros _. rewrite Ho. destruct Htail as [-> | ->]; split; reflexivity.
  - eexists. split; [exact Htr|]. split; [reflexivity|]. split.
    + intros n l Hn Hl Hlt. exfalso.
      destruct Hwhy as [[_ Hnone] | [Ho [Hnone | (l' & Hl' & Hle)]]]; try congruence.
      rewrite Hl in Hl'. injection Hl' as <-. rewrite Ho in Hlt. simpl in Hlt. lia.
    + intros Hprem. split; [reflexivity|].
      destruct Hwhy as [[[n Hn] Hnone] | [-> _]]; [|reflexivity].
      exfalso. destruct Hprem as [Hnone' | (l & Hl & _)]; congruence.
Qed.

(** ** The single calls *)

Lemma connect_first_try self :
  snd (conn_connect (connection self)) = true → snd (connect self) = inr PyNone.
Proof.
  intros Hok. unfold connect. simp connect_loop.
  destruct (lt_dec 0 MAX_CONNECTION_RETRIES) as [Hlt|Hge];
    [|exfalso; apply Hge; unfold MAX_CONNECTION_RETRIES; lia].
  simpl. unfold on_connection.
  destruct (conn_connect (connection self)) as [w ok]. simpl in Hok. subst ok.
  reflexivity.
Qed.

(** X9: what a rejection with a malformed body raises: a body that is not
    UTF-8 a [UnicodeDecodeError], a text that is not JSON a [JSONDecodeError],
    a JSON object without the key a [KeyError] for [reason], and any JSON value
    that is not an object a [TypeError]. *)
Theorem get_notification_result_malformed_body self sid (w w' : W) (response : Response)
    (bytes : string) :
  conn_get_response sid (connection self) = (w, inr response) →
  status response ≠ 200 →
  conn_read response w = (w', inr bytes) →
  let result := snd (get_notification_result sid self) in
  (utf8_decode bytes = None → result = inl UnicodeDecodeError)
  ∧ (∀ text, utf8_decode bytes = Some text → json_loads text = None →
       result = inl JSONDecodeError)
  ∧ (∀ text items, utf8_decode bytes = Some text → json_loads text = Some (PyDict items) →
       dict_get items "reason" = None → result = inl (KeyError "reason"))
  ∧ (∀ text data, utf8_decode bytes = Some text → json_loads text = Some data →
       (∀ items, data ≠ PyDict items) → result = inl (TypeError BadSubscript)).
Proof.
  intros Hresp Hst Hread result. subst result.
  rewrite get_notification_result_run, Hresp. simpl.
  apply Z.eqb_neq in Hst. rewrite Hst, Hread. simpl. unfold reason_of_body.
  split; [intros ->; reflexivity|].
  split; [intros text -> ->; reflexivity|].
  split; [intros text items -> -> Hg; simpl; rewrite Hg; reflexivity|].
  intros text data -> -> Hnot. destruct data; try reflexivity.
  exfalso. eapply Hnot. reflexivity.
Qed.

(** The calls of [send_notification] and what it leaves untouched. *)
Lemma send_notification_log self token_hex (notification : Payload) topic priority expiration :
  let out := send_notification token_hex notification topic priority expiration self in
  max_concurrent_streams (fst out) = max_concurrent_streams self
  ∧ previous_server_max_concurrent_streams (fst out)
    = previous_server_max_concurrent_streams self
  ∧ ∃ evs, trace (fst out) = trace self ++ evs
           ∧ connects evs = []
           ∧ settings evs = []
           ∧ (length (requests evs) ≤ 1)%nat
           ∧ drained evs = submitted evs
           ∧ (json_dumps_utf8 notification = None →
              evs = [] ∧ snd out = inl SerializeError).
Proof.
  intros out. subst out. unfold send_notification.
  rewrite bind_run, send_notification_async_run.
  destruct (json_dumps_utf8 notification) as [body|].
  2:{ simpl. split; [reflexivity|]. split; [reflexivity|]. exists [].
      rewrite app_nil_r. repeat split; simpl; lia. }
  simpl. destruct (conn_request _ _ _ _ _) as [w1 [what|sid]]; simpl.
  { split; [reflexivity|]. split; [reflexivity|]. eexists. split; [reflexivity|].
    repeat split; simpl; try lia; discriminate. }
  rewrite bind_run, get_notification_result_run. simpl.
  destruct (conn_get_response sid w1) as [w2 [what|response]]; simpl.
  { split; [reflexivity|]. split; [reflexivity|]. eexists.
    split; [rewrite <- app_assoc; reflexivity|]. repeat split; simpl; try lia; discriminate. }
  destruct (status response =? 200); simpl.
  { split; [reflexivity|]. split; [reflexivity|]. eexists.
    split; [rewrite <- app_assoc; reflexivity|]. repeat split; simpl; try lia; discriminate. }
  destruct (conn_read response w2) as [w3 [what|bytes]]; simpl.
  { split; [reflexivity|]. split; [reflexivity|]. eexists.
    split; [rewrite <- app_assoc; reflexivity|]. repeat split; simpl; try lia; discriminate. }
  destruct (reason_of_body bytes) as [e|result]; simpl.
  { split; [reflexivity|]. split; [reflexivity|]. eexists.
    split; [rewrite <- app_assoc; reflexivity|]. repeat split; simpl; try lia; discriminate. }
  destruct (py_ne_str result "Success"); simpl;
    (split; [reflexivity|]); (split; [reflexivity|]); eexists;
    (split; [rewrite <- app_assoc; reflexivity|]); repeat split; simpl; try lia; discriminate.
Qed.

(** X10: [send_notification] neither connects nor reads the peer's setting; it
    makes at most one request and awaits exactly the stream that request
    handed out, so nothing when the request failed; and a payload that cannot
    be serialized raises before any call on the connection. *)
Theorem send_notification_calls self token_hex (notification : Payload) topic priority
    expiration :
  let out := send_notification token_hex notification topic priority expiration self in
  ∃ evs, trace (fst out) = trace self ++ evs
         ∧ connects evs = []
         ∧ settings evs = []
         ∧ (length (requests evs) ≤ 1)%nat
         ∧ drained evs = submitted evs
         ∧ (json_dumps_utf8 notification = None → evs = [] ∧ snd out = inl SerializeError).
Proof.
  intros out.
  exact (proj2 (proj2 (send_notification_log self token_hex notification topic priority
                         expiration))).
Qed.

(** ** The invariant of the limit *)

(** X11: the effective limit of a client is always the clamp of the last raw
    value it saw: this holds of a new client and is kept by [connect], by the
    tracker, by [send_notification] and by a whole batch, whatever the outcome;
    so a limit, once set, is between 1 and 1000. *)
Theorem client_inv_kept self :
  client_inv self →
  client_inv (fst (connect self))
  ∧ client_inv (fst (update_max_concurrent_streams self))
  ∧ (∀ token_hex (notification : Payload) topic priority expiration,
       client_inv (fst (send_notification token_hex notification topic priority
                          expiration self)))
  ∧ (∀ (fuel : nat) (notifications : list (Notification Payload)) topic priority expiration
       self' r,
       send_notification_batch fuel notifications topic priority expiration self
       = Some (self', r) →
       client_inv self')
  ∧ (∀ l, max_concurrent_streams self = Some l → 1 ≤ l ≤ 1000)
  ∧ (∀ w : W, client_inv (init w)).
Proof.
  intros Hinv. split; [apply connect_inv, Hinv|].
  split; [apply update_max_concurrent_streams_inv, Hinv|]. split.
  { intros token_hex notification topic priority expiration.
    destruct (send_notification_log self token_hex notification topic priority expiration)
      as (Hm & Hp & _).
    unfold client_inv in *. rewrite Hm, Hp. exact Hinv. }
  split.
  { intros fuel notifications topic priority expiration self' r Hrun.
    eapply send_notification_batch_inv; eassumption. }
  split; [|intros w; apply client_inv_init].
  intros l Hl. unfold client_inv in Hinv. rewrite Hl in Hinv.
  destruct (previous_server_max_concurrent_streams self) as [p|]; [|discriminate].
  injection Hinv as ->. apply (clamp_range p).
Qed.

(** ** A gateway that accepts everything *)

(** X12: when the connection can be made, every payload serializes, no request
    is refused and every response has status 200, a batch returns the map that
    takes exactly the tokens of the input, each to ['Success']. *)
Theorem send_notification_batch_all_accepted self
    (notifications : list (Notification Payload)) topic priority expiration (k : nat) :
  client_inv self →
  snd (conn_connect (connection self)) = true →
  (∀ n, n ∈ notifications → is_Some (json_dumps_utf8 (payload n))) →
  (∀ method url body headers (w : W),
     ∃ sid, snd (conn_request method url body headers w) = inr sid) →
  (∀ sid (w : W),
     ∃ response, snd (conn_get_response sid w) = inr response ∧ status response = 200) →
  ∃ self' result_map,
    send_notification_batch (2 * length notifications + 1 + k) notifications topic priority
      expiration self = Some (self', inr result_map)
    ∧ ∀ recipient,
        result_map !! recipient
        = if decide (recipient ∈ token <$> notifications)
          then Some (PyStr "Success") else None.
Proof.
  intros Hinv Hconn Hdump Hreq Hresp. unfold send_notification_batch.
  pose proof (connect_first_try self Hconn) as Hc.
  pose proof (connect_inv self Hinv) as Hinv0.
  destruct (connect self) as [self0 [e|?]]; simpl in Hc, Hinv0; [discriminate|]. clear Hc.
  set (T := list_to_set (token <$> notifications) : gset string).
  destruct (batch_loop_rule
              (fun b self1 =>
                 client_inv self1
                 ∧ Forall (fun n => is_Some (json_dumps_utf8 (payload n))) (upcoming b)
                 ∧ (next_notification b = None → notification_iterator b = [])
                 ∧ tokens_left b ∪ dom (results b) = T
                 ∧ map_Forall (fun _ v => v = PyStr "Success") (results b))
              (fun _ _ => False) topic priority expiration)
    with (fuel := (2 * length notifications + 1 + k)%nat)
         (b := batch_start notifications) (self := self0)
    as (self' & r & Hrun & Hr).
  - clear self Hinv Hconn Hinv0 self0.
    intros b self (Hinv & Hup & Hnone & HT & Hres) Htest. simpl.
    pose proof (batch_iteration_inv topic priority expiration b self Hinv) as [Hinv' _].
    pose proof (update_sets_limit self Hinv) as Hl.
    pose proof (clamp_range (snd (conn_remote_max_concurrent_streams (connection self)))) as Hc.
    destruct (batch_iteration_cases topic priority expiration b self)
      as [(n & l & Hn & _ & _ & Hout) | [(ps & rest & Ho & _ & Hout) | (e & _ & _ & Hwhy)]].
    + rewrite Hout in Hinv' |- *. rewrite send_notification_async_run in Hinv' |- *.
      assert (Hu : upcoming b = n :: notification_iterator b)
        by (unfold upcoming; rewrite Hn; reflexivity).
      rewrite Hu in Hup. apply Forall_cons in Hup as [[body Hbody] Hup].
      rewrite Hbody in Hinv' |- *. simpl in Hinv' |- *.
      match goal with
      | |- context [conn_request ?m ?u ?bd ?h ?w] =>
          destruct (Hreq m u bd h w) as [sid Hsid]; rewrite Hsid in Hinv' |- *
      end.
      simpl in Hinv' |- *. split; [exact Hinv'|]. rewrite upcoming_after_submit.
      split; [exact Hup|].
      destruct (tokens_left_after_submit b n sid Hn Hnone) as [-> Hnone'].
      split; [exact Hnone'|]. split; [exact HT | exact Hres].
    + rewrite Hout in Hinv' |- *. rewrite get_notification_result_run in Hinv' |- *.
      simpl in Hinv' |- *.
      match goal with
      | |- context [conn_get_response ?sid ?w] =>
          destruct (Hresp sid w) as (response & Hrsp & Hst); rewrite Hrsp in Hinv' |- *
      end.
      rewrite Hst in Hinv' |- *. change (200 =? 200) with true in Hinv' |- *.
      cbn [fst snd] in Hinv' |- *. split; [exact Hinv'|].
      split; [exact Hup|]. split; [exact Hnone|].
      rewrite (tokens_left_after_drain b ps rest (PyStr "Success") Ho).
      split; [exact HT|]. apply map_Forall_insert_2; [reflexivity | exact Hres].
    + exfalso. rewrite Hl in Hwhy.
      destruct Hwhy as [[_ Hn] | [Ho [Hn | (l & [= <-] & Hle)]]]; [discriminate | | lia].
      assert (loop_test b = false) by (apply loop_test_false; split; assumption).
      congruence.
  - split; [exact Hinv0|]. split.
    { assert (Hu : upcoming (batch_start notifications) = notifications)
        by (destruct notifications; reflexivity).
      rewrite Hu. apply Forall_forall. exact Hdump. }
    split; [destruct notifications; simpl; [reflexivity | discriminate]|].
    rewrite tokens_left_batch_start. split.
    + unfold batch_start. destruct (advance notifications). simpl. rewrite dom_empty_L.
      subst T. set_solver.
    + unfold batch_start. destruct (advance notifications). simpl. apply map_Forall_empty.
  - rewrite pending_batch_start. lia.
  - rewrite Hrun. destruct r as [e|b']; [contradiction|].
    destruct Hr as [(_ & _ & Hnone & HT & Hres) Htest].
    exists self', (results b'). split; [reflexivity|].
    apply loop_test_false in Htest as [Hn Ho].
    assert (Hd : dom (results b') = T).
    { rewrite <- HT. unfold tokens_left. rewrite Hn, Ho, (Hnone Hn). simpl. set_solver. }
    intros recipient. destruct (decide (recipient ∈ token <$> notifications)) as [Hin|Hout].
    + assert (Hdom : recipient ∈ dom (results b'))
        by (rewrite Hd; subst T; apply elem_of_list_to_set; exact Hin).
      apply elem_of_dom in Hdom as [v Hv]. rewrite Hv. f_equal. exact (Hres recipient v Hv).
    + apply not_elem_of_dom. rewrite Hd. subst T. rewrite elem_of_list_to_set. exact Hout.
Qed.

End BatchLog.

(** * The properties on concrete runs *)

Import Sim.

(** The theorem on the limit tracker at a peer that reports 5000. *)
Lemma update_max_concurrent_streams_clamps_witness :
  snd (conn_remote_max_concurrent_streams (connection (fresh (peer [] [5000] all_ok)))) = 5000
  ∧ previous_server_max_concurrent_streams (fresh (peer [] [5000] all_ok)) ≠ Some 5000
  ∧ max_concurrent_streams
      (fst (update_max_concurrent_streams (fresh (peer [] [5000] all_ok)))) = Some 1000.
Proof.
  split; [reflexivity|]. split; [discriminate|].
  destruct (update_max_concurrent_streams_clamps (fresh (peer [] [5000] all_ok)) 5000)
    as (limit & Hl & _ & Hhigh & _); [reflexivity | discriminate |].
  rewrite Hl. f_equal. apply Hhigh. reflexivity.
Defined.

(** The return value of the tracker does not tell a change from no change: the
    first call on a new client changes the limit, the second does not, and
    both return [None]. *)
Lemma update_max_concurrent_streams_returns_none_either_way :
  let client := fresh (peer [] [500] all_ok) in
  let first := update_max_concurrent_streams client in
  let second := update_max_concurrent_streams (fst first) in
  max_concurrent_streams (fst first) ≠ max_concurrent_streams client
  ∧ max_concurrent_streams (fst second) = max_concurrent_streams (fst first)
  ∧ snd first = inr PyNone
  ∧ snd second = inr PyNone.
Proof. repeat split; try reflexivity. discriminate. Qed.

Lemma update_max_concurrent_streams_idempotent_witness :
  let client := fresh (peer [] [500] all_ok) in
  let first := update_max_concurrent_streams client in
  let second := update_max_concurrent_streams (fst first) in
  snd (conn_remote_max_concurrent_streams (connection (fst first)))
  = snd (conn_remote_max_concurrent_streams (connection client))
  ∧ max_concurrent_streams (fst second) = Some 500
  ∧ previous_server_max_concurrent_streams (fst second) = Some 500.
Proof.
  intros client first second.
  assert (Hsame : snd (conn_remote_max_concurrent_streams (connection (fst first)))
                  = snd (conn_remote_max_concurrent_streams (connection client)))
    by reflexivity.
  split; [exact Hsame|].
  destruct (update_max_concurrent_streams_idempotent client Hsame) as (_ & _ & Hm & Hp).
  fold first in Hm, Hp. fold second in Hm, Hp. rewrite Hm, Hp. split; reflexivity.
Defined.

(** A 200 response with a body that is not JSON: the result is ['Success']. *)
Lemma get_notification_result_by_status_witness :
  conn_get_response 1 (connection (fresh garbled_ok_peer))
  = (garbled_ok_peer, inr {| status := 200; handle := 1 |})
  ∧ @json_loads string sim_codec "<html>" = None
  ∧ snd (get_notification_result (Payload := string) 1 (fresh garbled_ok_peer))
    = inr (PyStr "Success").
Proof.
  assert (Hresp : conn_get_response 1 (connection (fresh garbled_ok_peer))
                  = (garbled_ok_peer, inr {| status := 200; handle := 1 |}))
    by reflexivity.
  split; [exact Hresp|]. split; [reflexivity|].
  destruct (get_notification_result_by_status (Payload := string) (fresh garbled_ok_peer) 1
              garbled_ok_peer {| status := 200; handle := 1 |} Hresp) as [Hok _].
  destruct Hok as [Hs _]; [reflexivity | exact Hs].
Defined.

(** A 410 response whose reason is the string Success: the outcome is a
    failure in the spec's terms, and [send_notification] returns normally. *)
Lemma send_notification_takes_success_reason_for_success :
  let client := fresh (rejecting_peer "Success") in
  let out := send_notification "a1" "{}"%string "topic" Immediate None client in
  fst (reply (connection client) 1) = 410
  ∧ reason_of_body (Payload := string) (snd (reply (connection client) 1))
    = inr (PyStr "Success")
  ∧ spec_outcome 410 (PyStr "Success") = Failure (PyStr "Success")
  ∧ snd out = inr PyNone.
Proof. repeat split; reflexivity. Qed.

Lemma send_notification_raises_unless_success_string_witness :
  let client := fresh (rejecting_peer "Unregistered") in
  let sent := send_notification_async "a1" "{}"%string "topic" Immediate None client in
  let got := get_notification_result (Payload := string) 1 (fst sent) in
  sent = (fst sent, inr 1)
  ∧ got = (fst got, inr (PyStr "Unregistered"))
  ∧ send_notification "a1" "{}"%string "topic" Immediate None client
    = (fst got, inl (NotificationRejected (PyStr "Unregistered"))).
Proof.
  intros client sent got.
  assert (Hsent : sent = (fst sent, inr 1)) by reflexivity.
  assert (Hgot : got = (fst got, inr (PyStr "Unregistered"))) by reflexivity.
  split; [exact Hsent|]. split; [exact Hgot|].
  subst got sent.
  destruct (send_notification_raises_unless_success_string _ _ _ _ _ _ _ _ _ _ Hsent Hgot)
    as (_ & Hraise & _).
  apply Hraise. discriminate.
Defined.

(** The loop on two notifications at a peer that allows two streams. *)
Lemma batch_loop_terminates_witness :
  client_inv (fresh (peer [] [2] all_ok))
  ∧ ∃ self' r,
      batch_loop (pending (batch_start [note "a"; note "b"]) + 1 + 0) "topic" Immediate None
        (batch_start [note "a"; note "b"]) (fresh (peer [] [2] all_ok)) = Some (self', r)
      ∧ match r with
        | inr b' =>
            next_notification b' = None ∧ open_streams b' = []
            ∧ iterate (pending (batch_start [note "a"; note "b"])) "topic" Immediate None
                (batch_start [note "a"; note "b"]) (fresh (peer [] [2] all_ok))
              = (self', inr b')
        | inl e => scheduler_fault e = false
        end.
Proof.
  assert (Hinv : client_inv (fresh (peer [] [2] all_ok))) by reflexivity.
  split; [exact Hinv|].
  destruct (proj1 (batch_loop_terminates "topic" Immediate None
                     (batch_start [note "a"; note "b"]) (fresh (peer [] [2] all_ok)) 0 Hinv))
    as (self' & r & Hrun & Hr).
  exists self', r. split; [exact Hrun|].
  destruct r as [e|b']; [exact (proj1 Hr) | exact Hr].
Defined.

(** Three streams are open when the peer lowers its limit to 1: after the
    fourth iteration two streams are still open under a limit of 1. *)
Lemma open_streams_exceed_lowered_limit :
  match iterate 4 "topic" Immediate None (batch_start three_notes)
          (fst (connect (fresh lowering_peer))) with
  | (self', inr b') =>
      max_concurrent_streams self' = Some 1 ∧ length (open_streams b') = 2%nat
  | (_, inl _) => False
  end.
Proof. vm_compute. split; reflexivity. Qed.

Lemma open_streams_bounded_by_peak_limit_witness :
  let client := fresh lowering_peer in
  let run := iterate 4 "topic" Immediate None (batch_start three_notes) client in
  let b' := after_drain (after_submit (after_submit (after_submit (batch_start three_notes)
                        (note "a") 1) (note "b") 3) (note "c") 5)
              {| stream_id := 1; rs_token := "a" |}
              [{| stream_id := 3; rs_token := "b" |}; {| stream_id := 5; rs_token := "c" |}]
              (PyStr "Success") in
  client_inv client
  ∧ run = (fst run, inr b')
  ∧ ∃ evs, trace (fst run) = trace client ++ evs
           ∧ Z.of_nat (length (open_streams b')) ≤ peak_limit (settings evs)
           ∧ peak_limit (settings evs) ≤ 1000.
Proof.
  intros client run b'.
  assert (Hinv : client_inv client) by reflexivity.
  assert (Hrun : run = (fst run, inr b')) by (vm_compute; reflexivity).
  split; [exact Hinv|]. split; [exact Hrun|].
  subst run.
  exact (proj1 (open_streams_bounded_by_peak_limit _ _ _ _ _ _ _ _ Hinv Hrun)).
Defined.

(** ** The scenarios of the specification, run *)

(** Five notifications under a limit of 2: every token gets its result, and the
    streams are submitted and drained in input order. *)
Example five_notifications_limit_two :
  match send_notification_batch 11 (note <$> ["a"; "b"; "c"; "d"; "e"]%string) "topic"
          Immediate None (fresh (peer [] [2] all_ok)) with
  | Some (self', inr result_map) =>
      size result_map = 5%nat
      ∧ result_map !! "c"%string = Some (PyStr "Success")
      ∧ submitted (trace self') = [1; 3; 5; 7; 9]
      ∧ drained (trace self') = [1; 3; 5; 7; 9]
  | _ => False
  end.
Proof. vm_compute. repeat split; reflexivity. Qed.

(** A token given twice has one entry. *)
Example duplicate_tokens_collapse :
  match send_notification_batch 7 (note <$> ["a"; "b"; "a"]%string) "topic"
          Delayed (Some 100) (fresh (peer [] [500] all_ok)) with
  | Some (_, inr result_map) => size result_map = 2%nat
  | _ => False
  end.
Proof. vm_compute. reflexivity. Qed.

(** A rejected stream is in the map with its reason. *)
Example rejected_token_keeps_reason :
  match send_notification_batch 5 (note <$> ["a"; "b"]%string) "topic" Immediate None
          (fresh (peer [] [500]
                    (fun sid => if sid =? 3 then (410, reason_body "Unregistered")
                                else (200, ""%string)))) with
  | Some (_, inr result_map) =>
      result_map !! "a"%string = Some (PyStr "Success")
      ∧ result_map !! "b"%string = Some (PyStr "Unregistered")
  | _ => False
  end.
Proof. vm_compute. split; reflexivity. Qed.

(** A body that cannot be decoded aborts the batch: no map is returned. *)
Example garbled_rejection_aborts_batch :
  match send_notification_batch 5 (note <$> ["a"; "b"]%string) "topic" Immediate None
          (fresh (peer [] [500] (fun _ => (500, "<html>"%string)))) with
  | Some (_, inl JSONDecodeError) => True
  | _ => False
  end.
Proof. vm_compute. exact I. Qed.

(** Three failed connection attempts: [ConnectionFailed], and the fourth
    scripted outcome is never consumed. *)
Example connect_gives_up_after_three :
  let out := connect (fresh (peer [false; false; false; true] [500] all_ok)) in
  snd out = inl ConnectionFailed
  ∧ connects (trace (fst out)) = [false; false; false]
  ∧ connect_script (connection (fst out)) = [true].
Proof. vm_compute. repeat split; reflexivity. Qed.

Example connect_stops_at_first_success :
  let out := connect (fresh (peer [false; true; false] [500] all_ok)) in
  snd out = inr PyNone ∧ connects (trace (fst out)) = [false; true].
Proof. vm_compute. split; reflexivity. Qed.

(** The headers of the two encodings the specification lists. *)
Example headers_default : request_headers "topic" Immediate None
                          = {[ "apns-topic"%string := "topic"%string ]}.
Proof. reflexivity. Qed.

Example headers_delayed_100 :
  let headers := request_headers "topic" Delayed (Some 100) in
  size headers = 3%nat
  ∧ headers !! "apns-topic"%string = Some "topic"%string
  ∧ headers !! "apns-priority"%string = Some "5"%string
  ∧ headers !! "apns-expiration"%string = Some "100"%string.
Proof. vm_compute. repeat split; reflexivity. Qed.

(** ** The further properties on concrete runs *)

(** A peer that raises its limit from 2 to 3 during the batch. *)
Lemma open_streams_within_limit_unless_lowered_witness :
  let client := fresh (peer [] [2; 3] all_ok) in
  let run := iterate 3 "topic" Immediate None (batch_start three_notes) client in
  let b' := after_submit (after_submit (after_submit (batch_start three_notes)
                (note "a") 1) (note "b") 3) (note "c") 5 in
  client_inv client
  ∧ run = (fst run, inr b')
  ∧ settings (trace (fst run)) = [2; 3; 3]
  ∧ max_concurrent_streams (fst run) = Some 3
  ∧ Z.of_nat (length (open_streams b')) ≤ 3.
Proof.
  intros client run b'.
  assert (Hinv : client_inv client) by reflexivity.
  assert (Hrun : run = (fst run, inr b')) by (vm_compute; reflexivity).
  assert (Hset : settings (trace (fst run)) = [2; 3; 3]) by (vm_compute; reflexivity).
  assert (Hmax : max_concurrent_streams (fst run) = Some 3) by (vm_compute; reflexivity).
  split; [exact Hinv|]. split; [exact Hrun|]. split; [exact Hset|]. split; [exact Hmax|].
  subst run.
  pose proof (open_streams_within_limit_unless_lowered _ _ _ _ _ _ _ _ _ Hinv Hrun eq_refl)
    as Hbound.
  rewrite Hmax in Hbound. apply Hbound. rewrite Hset.
  intros i j x y Hij Hi Hj.
  destruct i as [|[|[|i]]], j as [|[|[|j]]]; simpl in Hi, Hj;
    try discriminate; try lia; injection Hi as <-; injection Hj as <-; vm_compute;
    discriminate.
Defined.

(** A rejection whose body is not JSON. *)
Lemma get_notification_result_malformed_body_witness :
  let w := peer [] [500] (fun _ => (500, "<html>"%string)) in
  let response := {| status := 500; handle := 1 |} in
  conn_get_response 1 (connection (fresh w)) = (w, inr response)
  ∧ status response ≠ 200
  ∧ conn_read response w = (w, inr "<html>"%string)
  ∧ snd (get_notification_result (Payload := string) 1 (fresh w)) = inl JSONDecodeError.
Proof.
  intros w response.
  assert (Hresp : conn_get_response 1 (connection (fresh w)) = (w, inr response))
    by reflexivity.
  assert (Hst : status response ≠ 200) by discriminate.
  assert (Hread : conn_read response w = (w, inr "<html>"%string)) by reflexivity.
  split; [exact Hresp|]. split; [exact Hst|]. split; [exact Hread|].
  destruct (get_notification_result_malformed_body (Payload := string) (fresh w) 1 w w
              response "<html>" Hresp Hst Hread) as (_ & Hjson & _).
  apply (Hjson "<html>"%string); reflexivity.
Defined.

(** A client that has seen the raw value 5000. *)
Lemma client_inv_kept_witness :
  let client := fst (update_max_concurrent_streams (fresh (peer [] [5000] all_ok))) in
  client_inv client
  ∧ max_concurrent_streams client = Some 1000
  ∧ client_inv (fst (connect client)).
Proof.
  intros client.
  assert (Hinv : client_inv client) by reflexivity.
  split; [exact Hinv|]. split; [reflexivity|].
  exact (proj1 (client_inv_kept (Payload := string) client Hinv)).
Defined.

(** Two notifications to the gateway that accepts everything. *)
Lemma send_notification_batch_all_accepted_witness :
  client_inv (init (W := Z) 1)
  ∧ ∃ self' result_map,
      send_notification_batch (2 * 2 + 1 + 0) [note "a"; note "b"] "topic" Immediate None
        (init (W := Z) 1) = Some (self', inr result_map)
      ∧ result_map !! "a"%string = Some (PyStr "Success")
      ∧ result_map !! "z"%string = None.
Proof.
  assert (Hinv : client_inv (init (W := Z) 1)) by reflexivity.
  split; [exact Hinv|].
  destruct (send_notification_batch_all_accepted (init (W := Z) 1) [note "a"; note "b"]
              "topic" Immediate None 0 Hinv) as (self' & result_map & Hrun & Hmap).
  - reflexivity.
  - intros n _. simpl. eexists. reflexivity.
  - intros method url body headers w. eexists. reflexivity.
  - intros sid w. eexists. split; reflexivity.
  - exists self', result_map. split; [exact Hrun|].
    split; [rewrite Hmap; reflexivity | rewrite Hmap; reflexivity].
Defined.
